(** * Outbound dial coordinator of the swarm (swarm_conn.go)

    A shallow embedding of the dial path of go-libp2p-swarm:
    the dial backoff registry ([DialBackoff]), the address filter
    ([filterKnownUndialables]), the per-address dial ([dialAddr]), the
    address race ([dialAddrs]), the dial engine ([dial]) and the facade
    ([doDial], [dialPeer]), together with the older connection wrapper
    ([wrapConn], [newConnSetup]).

    Conventions.
    - Go's [int] and [time.Duration] are 64-bit signed integers: they are
      modelled as [Z] with the wrap-around written out ([wrap64]).
    - A [time.Time] instant is a [Z] (nanoseconds); [time.Now()] is an
      argument of the operation that reads the clock.
    - A Go pair [(value, error)] is a [result]; an [error] is a value of
      the inductive type [error].
    - Mutable swarm state is threaded explicitly through a small state and
      trace monad [M]; calls to external collaborators (transports, the
      limiter, connection close) are recorded as [Event]s.
    - The goroutine scheduling seen by the [select] statements of
      [dialAddrs] is an explicit schedule (a list of [select_case]).
    - Mutexes and logging are omitted. *)

From Stdlib Require Import ZArith List Bool Lia.
From stdpp Require Import base gmap strings list fin_maps.

Open Scope Z_scope.

(** ** Basic data *)

(** [peer.ID] is a Go string. *)
Abbreviation peer_ID := string.

(** A public key is an opaque byte string here. *)
Abbreviation PubKey := string.

(** One component of a multiaddr: the protocol code and its value. *)
Record Component := mkComponent { Code : Z; Value : string }.

#[global] Instance Component_eq_dec : EqDecision Component.
Proof. solve_decision. Defined.

#[global] Instance Component_countable : Countable Component.
Proof.
  apply (inj_countable' (fun c => (Code c, Value c))
                        (fun cv => mkComponent (fst cv) (snd cv))).
  by intros [].
Defined.

(** [ma.Multiaddr]: the protocol stack, outermost protocol first.
    Two multiaddrs have the same bytes iff they are equal as lists. *)
Abbreviation Multiaddr := (list Component).

Definition P_IP4 : Z := 4.
Definition P_IP6 : Z := 41.

(** [addr.Protocols()]: the protocol codes of the stack. *)
Definition Protocols (addr : Multiaddr) : list Z := map Code addr.

(** ** Machine integers *)

(** Two's complement wrap-around of a 64-bit signed integer. *)
Definition wrap64 (z : Z) : Z := (z + 2 ^ 63) mod 2 ^ 64 - 2 ^ 63.

Definition in_int64 (z : Z) : Prop := - 2 ^ 63 <= z < 2 ^ 63.

(** [time.Duration] constants, in nanoseconds. *)
Definition Second : Z := 1000000000.
Definition Minute : Z := 60 * Second.

(** ** Dial backoff registry *)

(** [type backoffPeer struct { tries int; until time.Time }] *)
Record backoffPeer := mkBackoffPeer { tries : Z; until : Z }.

(** [type DialBackoff struct { entries map[peer.ID]*backoffPeer; lock }].
    The zero value has a nil map ([None]). *)
Record DialBackoff := mkDialBackoff { entries : option (gmap string backoffPeer) }.

(** The package variables [BackoffBase], [BackoffCoef], [BackoffMax]. *)
Record BackoffVars := mkBackoffVars {
  BackoffBase : Z;
  BackoffCoef : Z;
  BackoffMax : Z
}.

(** Their default values: 5s, 1s, 5m. *)
Definition default_vars : BackoffVars :=
  {| BackoffBase := Second * 5; BackoffCoef := Second; BackoffMax := Minute * 5 |}.

(** [db.init()] *)
Definition init (db : DialBackoff) : DialBackoff :=
  match entries db with
  | None => {| entries := Some ∅ |}
  | Some _ => db
  end.

(** [db.entries[p]]: reading a nil map finds nothing. *)
Definition entry (db : DialBackoff) (p : peer_ID) : option backoffPeer :=
  match entries db with
  | None => None
  | Some m => m !! p
  end.

(** [db.entries[p] = bp] (after [init], the map is not nil). *)
Definition set_entry (db : DialBackoff) (p : peer_ID) (bp : backoffPeer) : DialBackoff :=
  {| entries := Some (<[p := bp]> (default ∅ (entries db))) |}.

(** [Backoff(p)]: the registry after the call and the returned flag.
    [now] is the value of [time.Now()]. *)
Definition Backoff (now : Z) (p : peer_ID) (db : DialBackoff) : DialBackoff * bool :=
  let db := init db in
  match entry db p with
  | Some bp => if now <? until bp then (db, true) else (db, false)
  | None => (db, false)
  end.

(** [BackoffBase + BackoffCoef*time.Duration(bp.tries*bp.tries)], cut at
    [BackoffMax]; every operation wraps at 64 bits. *)
Definition backoffTime (v : BackoffVars) (k : Z) : Z :=
  let d := wrap64 (BackoffBase v + wrap64 (BackoffCoef v * wrap64 (k * k))) in
  if d >? BackoffMax v then BackoffMax v else d.

(** [AddBackoff(p)] *)
Definition AddBackoff (v : BackoffVars) (now : Z) (p : peer_ID) (db : DialBackoff) : DialBackoff :=
  let db := init db in
  match entry db p with
  | None => set_entry db p {| tries := 1; until := now + BackoffBase v |}
  | Some bp =>
      set_entry db p {| tries := wrap64 (tries bp + 1);
                        until := now + backoffTime v (tries bp) |}
  end.

(** [Clear(p)] *)
Definition Clear (p : peer_ID) (db : DialBackoff) : DialBackoff :=
  let db := init db in
  {| entries := Some (delete p (default ∅ (entries db))) |}.

(** ** Errors and results *)

(** Error values.  The package-level sentinels are compared by identity in
    the source; values built by [errors.New] at a call site or by
    [fmt.Errorf] are never identical to a sentinel. *)
Inductive error :=
| ErrDialBackoff                       (* errors.New("dial backoff") *)
| ErrDialFailed                        (* errors.New("dial attempt failed") *)
| ErrDialToSelf                        (* errors.New("dial to self attempted") *)
| ErrNoTransport                       (* errors.New("no transport for protocol") *)
| ErrNoRemoteAddrs                     (* inet.ErrNoRemoteAddrs *)
| Canceled                             (* context.Canceled *)
| DeadlineExceeded                     (* context.DeadlineExceeded *)
| errors_New (msg : string)            (* errors.New(msg) at a call site *)
| Errorf_doDial (err : error)          (* "dial attempt failed: %s" *)
| Errorf_dialAddr (l p : string) (err : error)   (* "%s --> %s dial attempt failed: %s" *)
| Errorf_bug (p dialed : string) (tpt : string)  (* "BUG in transport ..." *)
| Errorf_wrapConn (psc : string)       (* "swarm connHandler: invalid conn ..." *)
| ErrExternal (msg : string).          (* an error value made by a collaborator *)

#[global] Instance error_eq_dec : EqDecision error.
Proof.
  intros x y; unfold Decision.
  decide equality; apply (decide (_ = _)).
Defined.

(** A Go return pair [(value, error)]. *)
Inductive result (A : Type) :=
| Ok (a : A)
| Err (e : error).
Arguments Ok {A} a.
Arguments Err {A} e.

(** The two reasons [ctx.Err()] reports once [ctx.Done()] is closed. *)
Inductive ctx_reason := CtxCanceled | CtxDeadlineExceeded.

Definition ctx_Err (r : ctx_reason) : error :=
  match r with
  | CtxCanceled => Canceled
  | CtxDeadlineExceeded => DeadlineExceeded
  end.

(** ** Connections *)

(** [conn.Conn] / [transport.Conn]: what the dial path reads from it. *)
Record TConn := mkTConn {
  LocalMultiaddr : Multiaddr;
  RemoteMultiaddr : Multiaddr;
  LocalPeer : string;
  RemotePeer : string;
  RemotePublicKey : option string
}.

(** What [psc.NetConn()] holds: one of our [conn.Conn]s or something else. *)
Inductive net_conn :=
| IsConn (c : TConn)
| NotConn (desc : string).

(** [ps.Conn], and [type Conn ps.Conn]. *)
Record Conn := mkConn { NetConn : net_conn; groups : list string }.

(** [c.RawConn()]: the type assertion panics ([None]) on a foreign conn. *)
Definition RawConn (c : Conn) : option TConn :=
  match NetConn c with
  | IsConn rc => Some rc
  | NotConn _ => None
  end.

(** [wrapConn(psc)] *)
Definition wrapConn (psc : Conn) : result Conn :=
  match NetConn psc with
  | IsConn _ => Ok psc
  | NotConn desc => Err (Errorf_wrapConn desc)
  end.

(** [psConn.AddGroup(g)] *)
Definition AddGroup (g : string) (psc : Conn) : Conn :=
  {| NetConn := NetConn psc; groups := groups psc ++ [g] |}.

Inductive Direction := DirInbound | DirOutbound.

(** ** Transports, peer store, swarm *)

(** [transport.Transport]: [CanDial(addr)] and the outcome of
    [Dial(ctx, addr, p)]. *)
Record Transport := mkTransport {
  tpt_name : string;
  CanDial : Multiaddr -> bool;
  Dial : Multiaddr -> string -> result TConn
}.

(** The peer store, as far as the dial path uses it. *)
Record Peerstore := mkPeerstore {
  ps_addrs : gmap string (list Multiaddr);
  ps_pubkeys : gmap string string
}.

(** [s.peers.Addrs(p)] *)
Definition Addrs (ps : Peerstore) (p : peer_ID) : list Multiaddr :=
  default [] (ps_addrs ps !! p).

(** [s.peers.AddPubKey(p, pk)] *)
Definition AddPubKey (p : peer_ID) (pk : PubKey) (ps : Peerstore) : Peerstore :=
  {| ps_addrs := ps_addrs ps;
     ps_pubkeys := <[p := pk]> (ps_pubkeys ps) |}.

(** The fields of [Swarm] the dial path touches.  [TransportForDialing] and
    [InterfaceListenAddresses] are methods defined in other files; their
    answers are carried as fields. *)
Record Swarm := mkSwarm {
  local : string;
  peers : Peerstore;
  backf : DialBackoff;
  AddrBlocked : Multiaddr -> bool;                      (* s.Filters.AddrBlocked *)
  TransportForDialing : Multiaddr -> option Transport;
  InterfaceListenAddresses : list Multiaddr;
  bestDest : option (string -> list Multiaddr -> list Multiaddr);
  conns : list Conn
}.

Definition set_backf (f : DialBackoff -> DialBackoff) (s : Swarm) : Swarm :=
  {| local := local s; peers := peers s; backf := f (backf s);
     AddrBlocked := AddrBlocked s; TransportForDialing := TransportForDialing s;
     InterfaceListenAddresses := InterfaceListenAddresses s;
     bestDest := bestDest s; conns := conns s |}.

Definition set_peers (f : Peerstore -> Peerstore) (s : Swarm) : Swarm :=
  {| local := local s; peers := f (peers s); backf := backf s;
     AddrBlocked := AddrBlocked s; TransportForDialing := TransportForDialing s;
     InterfaceListenAddresses := InterfaceListenAddresses s;
     bestDest := bestDest s; conns := conns s |}.

Definition set_conns (f : list Conn -> list Conn) (s : Swarm) : Swarm :=
  {| local := local s; peers := peers s; backf := backf s;
     AddrBlocked := AddrBlocked s; TransportForDialing := TransportForDialing s;
     InterfaceListenAddresses := InterfaceListenAddresses s;
     bestDest := bestDest s; conns := f (conns s) |}.

(** Functions the dial path calls that are defined outside swarm_conn.go
    and whose definition no claim depends on.  [addConn_refuses] says when,
    and with which error, the connection table refuses a connection. *)
Record Externals := mkExternals {
  Validate : string -> option error;                     (* p.Validate() *)
  AddrOverNonLocalIP : Multiaddr -> bool;                (* addrutil *)
  bestConnToPeerWrapper : Swarm -> string -> option Conn;
  bestConnToPeerFallbackWrapper : Swarm -> string -> option Conn;
  addConn_refuses : Swarm -> TConn -> option error       (* the error of s.addConn *)
}.

(** ** Effects *)

(** Calls to collaborators that the dial path makes. *)
Inductive Event :=
| EvAddDialJob (p : string) (a : Multiaddr)              (* s.limiter.AddDialJob *)
| EvClearAllPeerDials (p : string)                       (* s.limiter.clearAllPeerDials *)
| EvTransportDial (tpt : string) (a : Multiaddr) (p : string)   (* tpt.Dial *)
| EvClose (c : TConn).                                   (* connC.Close() *)

(** A computation over the swarm: [None] when it does not return (it is
    still blocked when the schedule ends, or it panics); otherwise its
    value, the new swarm state and the collaborator calls it made, oldest
    first. *)
Definition M (A : Type) : Type := Swarm -> option (A * Swarm * list Event).

#[global] Instance M_ret : MRet M := fun A a s => Some (a, s, []).

#[global] Instance M_bind : MBind M := fun A B f m s =>
  match m s with
  | None => None
  | Some (a, s1, tr1) =>
      match f a s1 with
      | None => None
      | Some (b, s2, tr2) => Some (b, s2, tr1 ++ tr2)
      end
  end.

Definition get : M Swarm := fun s => Some (s, s, []).
Definition modify (f : Swarm -> Swarm) : M unit := fun s => Some (tt, f s, []).
Definition emit (e : Event) : M unit := fun s => Some (tt, s, [e]).
Definition stuck {A : Type} : M A := fun _ => None.

(** ** Address utilities (package addrutil) *)

(** [addrutil.FilterAddrs(a, filters...)]: keep the addresses every filter
    accepts, appending them in the order met. *)
Definition FilterAddrs (a : list Multiaddr) (filters : list (Multiaddr -> bool))
  : list Multiaddr :=
  fold_left
    (fun b addr =>
       let good := fold_left (fun good f => good && f addr) filters true in
       if good then b ++ [addr] else b)
    a [].

(** [addrutil.SubtractFilter(addrs...)]: a set of the addresses' bytes is
    built and the filter accepts what is not in it. *)
Definition SubtractFilter (addrs : list Multiaddr) : Multiaddr -> bool :=
  let addrmap : gset (list Component) := list_to_set addrs in
  fun a => negb (bool_decide (a ∈ addrmap)).

(** [addrutil.FilterNeg(f)] *)
Definition FilterNeg (f : Multiaddr -> bool) : Multiaddr -> bool :=
  fun a => negb (f a).

(** ** The dial path *)

(** What the limiter and the race share, besides the swarm: the state of
    the loop of [dialAddrs]. *)
Record race := mkRace {
  remoteAddrs : option (list Multiaddr);  (* [None]: the variable is nil;
                                             [Some l]: closed channel holding [l] *)
  active : Z;
  exitErr : error;
  inflight : list Multiaddr               (* jobs given to the limiter whose
                                             result was not received yet *)
}.

(** Which case the two [select] statements of one loop iteration take.
    [First...]: the first select takes that case.  [Second...]: the first
    select takes [default] and the second select takes that case. *)
Inductive select_case :=
| FirstCtxDone (r : ctx_reason)     (* [<-ctx.Done()], [ctx.Err()] is [r] *)
| FirstResp (j : nat)               (* [<-respch]: in-flight job [j] answers *)
| SecondAddr                        (* [<-remoteAddrs] *)
| SecondCtxDone (r : ctx_reason)
| SecondResp (j : nat).

(** How one iteration ends: back to the loop head, or out of the function. *)
Inductive step :=
| Continue (st : race)
| Return (r : result TConn).

Section Model.

Context (X : Externals) (v : BackoffVars).

(** [s.canDial(addr)] *)
Definition canDial (s : Swarm) (addr : Multiaddr) : bool :=
  match TransportForDialing s addr with
  | Some t => CanDial t addr
  | None => false
  end.

(** The listen addresses that take part in the comparison: the loop over
    [lisAddrs] in [filterKnownUndialables]. *)
Definition ourAddrs (s : Swarm) : list Multiaddr :=
  fold_left
    (fun our addr =>
       let protos := Protocols addr in
       if (length protos =? 2)%nat
          && match protos with
             | c0 :: _ => (c0 =? P_IP4) || (c0 =? P_IP6)
             | [] => false
             end
       then our ++ [addr] else our)
    (InterfaceListenAddresses s) [].

(** [s.filterKnownUndialables(addrs)] *)
Definition filterKnownUndialables (s : Swarm) (addrs : list Multiaddr) : list Multiaddr :=
  FilterAddrs addrs
    [ SubtractFilter (ourAddrs s);
      canDial s;
      AddrOverNonLocalIP X;
      FilterNeg (AddrBlocked s) ].

(** [s.newConnSetup(ctx, psConn)] *)
Definition newConnSetup (psConn : Conn) : M (result Conn) :=
  match wrapConn psConn with
  | Err err => mret (Err err)
  | Ok sc =>
      match RawConn sc with
      | None => stuck
      | Some rc =>
          match RemotePublicKey rc with
          | Some pk => modify (set_peers (AddPubKey (RemotePeer rc) pk))
          | None => mret tt
          end ;;
          mret (Ok (AddGroup (RemotePeer rc) sc))
      end
  end.

(** [s.dialAddr(ctx, p, addr)] *)
Definition dialAddr (p : peer_ID) (addr : Multiaddr) : M (result TConn) :=
  s ← get ;
  if decide (local s = p) then mret (Err ErrDialToSelf)
  else
    match TransportForDialing s addr with
    | None => mret (Err ErrNoTransport)
    | Some tpt =>
        emit (EvTransportDial (tpt_name tpt) addr p) ;;
        match Dial tpt addr p with
        | Err err => mret (Err (Errorf_dialAddr (local s) p err))
        | Ok connC =>
            if decide (RemotePeer connC ≠ p) then
              emit (EvClose connC) ;;
              mret (Err (Errorf_bug p (RemotePeer connC) (tpt_name tpt)))
            else mret (Ok connC)
        end
    end.

(** [s.limitedDial(ctx, p, a, resp)]: the job is handed to the limiter. *)
Definition limitedDial (p : peer_ID) (a : Multiaddr) (st : race) : M race :=
  emit (EvAddDialJob p a) ;;
  mret {| remoteAddrs := remoteAddrs st; active := active st;
          exitErr := exitErr st; inflight := inflight st ++ [a] |}.

(** Modelled from the spec: the limiter ([s.limiter], [AddDialJob]) is not
    part of the sources.  Following the spec, a job the limiter lets through executes
    [dialAddr] for its address and posts the outcome to the job's result
    channel; the schedule says which in-flight job answers next.  The
    result is a [dialResult] whose [Err] or [Conn] is set. *)
Definition job_answer (p : peer_ID) (j : nat) (st : race) : M (result TConn * race) :=
  match inflight st !! j with
  | None => stuck
  | Some a =>
      r ← dialAddr p a ;
      mret (r, {| remoteAddrs := remoteAddrs st; active := active st;
                  exitErr := exitErr st; inflight := delete j (inflight st) |})
  end.

(** The [case <-ctx.Done()] branch of either select. *)
Definition on_done (r : ctx_reason) (st : race) : result TConn :=
  let exitErr :=
    if decide (exitErr st = ErrNoRemoteAddrs) then ctx_Err r else exitErr st in
  Err exitErr.

(** The [case resp := <-respch] branch of either select. *)
Definition on_resp (p : peer_ID) (j : nat) (st : race) : M step :=
  '(resp, st) ← job_answer p j st ;
  let active := wrap64 (active st - 1) in
  match resp with
  | Err err =>
      mret (Continue {| remoteAddrs := remoteAddrs st; active := active;
                        exitErr := err; inflight := inflight st |})
  | Ok conn => mret (Return (Ok conn))
  end.

(** One iteration of the loop of [dialAddrs]. *)
Definition iteration (p : peer_ID) (c : select_case) (st : race) : M step :=
  match c with
  | FirstCtxDone r => mret (Return (on_done r st))
  | FirstResp j => on_resp p j st
  | SecondAddr =>
      match remoteAddrs st with
      | None => stuck                       (* a nil channel is never ready *)
      | Some [] =>                          (* [!ok]: [remoteAddrs = nil] *)
          mret (Continue {| remoteAddrs := None; active := active st;
                            exitErr := exitErr st; inflight := inflight st |})
      | Some (addr :: rest) =>
          st ← limitedDial p addr
                 {| remoteAddrs := Some rest; active := active st;
                    exitErr := exitErr st; inflight := inflight st |} ;
          mret (Continue {| remoteAddrs := remoteAddrs st;
                            active := wrap64 (active st + 1);
                            exitErr := exitErr st; inflight := inflight st |})
      end
  | SecondCtxDone r => mret (Return (on_done r st))
  | SecondResp j => on_resp p j st
  end.

(** The loop condition [remoteAddrs != nil || active > 0]. *)
Definition loop_cond (st : race) : bool :=
  match remoteAddrs st with
  | Some _ => true
  | None => 0 <? active st
  end.

(** The loop of [dialAddrs], driven by the schedule. *)
Fixpoint dialAddrs_loop (p : peer_ID) (sched : list select_case) (st : race)
  : M (result TConn) :=
  if loop_cond st then
    match sched with
    | [] => stuck
    | c :: sched =>
        x ← iteration p c st ;
        match x with
        | Continue st => dialAddrs_loop p sched st
        | Return r => mret r
        end
    end
  else mret (Err (exitErr st)).

(** [s.dialAddrs(ctx, p, remoteAddrs)]; the deferred
    [clearAllPeerDials(p)] runs on every return. *)
Definition dialAddrs (p : peer_ID) (addrs : list Multiaddr) (sched : list select_case)
  : M (result TConn) :=
  r ← dialAddrs_loop p sched
        {| remoteAddrs := Some addrs; active := 0;
           exitErr := ErrNoRemoteAddrs; inflight := [] |} ;
  emit (EvClearAllPeerDials p) ;;
  mret r.

(** Modelled from the spec: [addConn] (the connection registry's
    [add_conn]) is not part of the sources.  Following the spec, it
    registers the connection with the host and provides back the wrapper
    that is handed to callers, and does nothing else.  [dial] handles an
    error of [addConn], so the registration can be refused. *)
Definition addConn (tc : TConn) (dir : Direction) : M (result Conn) :=
  s ← get ;
  match addConn_refuses X s tc with
  | Some err => mret (Err err)
  | None =>
      let c := {| NetConn := IsConn tc; groups := [] |} in
      modify (set_conns (fun cs => cs ++ [c])) ;;
      mret (Ok c)
  end.

(** Modelled from the spec: [bestDestSelectWrapper] is not part of the
    sources; the installed selector is a function from the candidate list
    to a list. *)
Definition bestDestSelectWrapper (s : Swarm) (p : peer_ID) (addrs : list Multiaddr)
  : list Multiaddr :=
  match bestDest s with
  | Some f => f p addrs
  | None => addrs
  end.

(** [s.dial(ctx, p)] *)
Definition dial (p : peer_ID) (sched : list select_case) : M (result Conn) :=
  s ← get ;
  if decide (p = local s) then mret (Err ErrDialToSelf)
  else
    let peerAddrs := Addrs (peers s) p in
    if (length peerAddrs =? 0)%nat then mret (Err (errors_New "no addresses"))
    else
      let goodAddrs := filterKnownUndialables s peerAddrs in
      if (length goodAddrs =? 0)%nat then mret (Err (errors_New "no good addresses"))
      else
        let goodAddrs :=
          match bestDest s with
          | Some _ =>
              let bestAddrs := bestDestSelectWrapper s p goodAddrs in
              if negb (length bestAddrs =? 0)%nat then bestAddrs else goodAddrs
          | None => goodAddrs
          end in
        r ← dialAddrs p goodAddrs sched ;
        match r with
        | Err err => mret (Err err)
        | Ok connC =>
            r ← addConn connC DirOutbound ;
            match r with
            | Err err => emit (EvClose connC) ;; mret (Err err)
            | Ok swarmC => mret (Ok swarmC)
            end
        end.

(** [s.doDial(ctx, p)]; [now] is the clock read by [AddBackoff]. *)
Definition doDial (now : Z) (p : peer_ID) (sched : list select_case) : M (result Conn) :=
  s ← get ;
  match bestConnToPeerWrapper X s p with
  | Some c => mret (Ok c)
  | None =>
      r ← dial p sched ;
      match r with
      | Err err =>
          s ← get ;
          match bestConnToPeerFallbackWrapper X s p with
          | Some conn => mret (Ok conn)
          | None =>
              (if decide (err ≠ Canceled)
               then modify (set_backf (AddBackoff v now p))
               else mret tt) ;;
              mret (Err (Errorf_doDial err))
          end
      | Ok conn => mret (Ok conn)
      end
  end.

(** Modelled from the spec: [s.dsync.DialLock] is not part of the sources.
    Following the spec, a caller that finds no effort in progress for the
    peer becomes the leader and runs the dial itself.  Only this case is
    modelled: a follower, and a caller whose own context ends before the
    effort does, are not. *)
Definition DialLock (now : Z) (p : peer_ID) (sched : list select_case) : M (result Conn) :=
  doDial now p sched.

(** [s.dialPeer(ctx, p)]; [now] is the clock read by [Backoff], [now']
    the one read later by [AddBackoff]. *)
Definition dialPeer (now now' : Z) (p : peer_ID) (sched : list select_case)
  : M (result Conn) :=
  match Validate X p with
  | Some err => mret (Err err)
  | None =>
      s ← get ;
      if decide (p = local s) then mret (Err ErrDialToSelf)
      else
        match bestConnToPeerWrapper X s p with
        | Some conn => mret (Ok conn)
        | None =>
            let '(db, backoff) := Backoff now p (backf s) in
            modify (set_backf (fun _ => db)) ;;
            if backoff then mret (Err ErrDialBackoff)
            else
              r ← DialLock now' p sched ;
              match r with
              | Err err => mret (Err err)
              | Ok conn => mret (Ok conn)
              end
        end
  end.

End Model.

(** ** The rest of the connection wrapper *)

(** The loop of [wrapConns]: slot [i] of [conns2] is set when [wrapConn]
    accepts the connection at index [i]; the other slots stay nil. *)
Fixpoint wrapConns_loop (i : nat) (conns1 : list Conn) (conns2 : list (option Conn))
  : list (option Conn) :=
  match conns1 with
  | [] => conns2
  | c1 :: rest =>
      wrapConns_loop (S i) rest
        match wrapConn c1 with
        | Ok c2 => <[i := Some c2]> conns2
        | Err _ => conns2
        end
  end.

(** [wrapConns(conns1)]: [make([]*Conn, len(conns1))], then the loop. *)
Definition wrapConns (conns1 : list Conn) : list (option Conn) :=
  wrapConns_loop 0 conns1 (replicate (length conns1) None).

(** ** Reading a trace *)

(** The addresses handed to the limiter, oldest first. *)
Definition jobs_of (tr : list Event) : list Multiaddr :=
  omap (fun e => match e with EvAddDialJob _ a => Some a | _ => None end) tr.

(** The addresses the transports were asked to dial, oldest first. *)
Definition dials_of (tr : list Event) : list Multiaddr :=
  omap (fun e => match e with EvTransportDial _ a _ => Some a | _ => None end) tr.

(** The connections that were closed. *)
Definition closes_of (tr : list Event) : list TConn :=
  omap (fun e => match e with EvClose c => Some c | _ => None end) tr.

(** Every job and every transport dial of the trace is for peer [p]. *)
Definition trace_for (p : peer_ID) (tr : list Event) : Prop :=
  forall e, e ∈ tr ->
    match e with
    | EvAddDialJob q _ => q = p
    | EvTransportDial _ _ q => q = p
    | EvClearAllPeerDials q => q = p
    | EvClose _ => True
    end.

(** The addresses [dial] gives to the race: the filtered addresses of the
    peer, or the selection of [bestDest] when one is installed and it
    selects something. *)
Definition dial_candidates (X : Externals) (s : Swarm) (p : peer_ID) : list Multiaddr :=
  let goodAddrs := filterKnownUndialables X s (Addrs (peers s) p) in
  match bestDest s with
  | Some _ =>
      let bestAddrs := bestDestSelectWrapper s p goodAddrs in
      if negb (length bestAddrs =? 0)%nat then bestAddrs else goodAddrs
  | None => goodAddrs
  end.

(** ** Sample data *)

Definition addrA : Multiaddr := [mkComponent 4 "1.2.3.4"; mkComponent 6 "4001"].
Definition addrB : Multiaddr := [mkComponent 4 "5.6.7.8"; mkComponent 6 "4001"].
Definition addrListen : Multiaddr := [mkComponent 4 "10.0.0.1"; mkComponent 6 "4001"].

(** The connection a well-behaved transport reports for a dial of [p]. *)
Definition conn_to (p : peer_ID) (a : Multiaddr) : TConn :=
  {| LocalMultiaddr := addrListen; RemoteMultiaddr := a;
     LocalPeer := "QmLocal"; RemotePeer := p; RemotePublicKey := Some "pk" |}.

Definition tcp_ok : Transport :=
  {| tpt_name := "tcp"; CanDial := fun _ => true;
     Dial := fun a p => Ok (conn_to p a) |}.

Definition tcp_refused : Transport :=
  {| tpt_name := "tcp"; CanDial := fun _ => true;
     Dial := fun _ _ => Err (ErrExternal "refused") |}.

Definition tcp_wrong_peer : Transport :=
  {| tpt_name := "tcp"; CanDial := fun _ => true;
     Dial := fun a _ => Ok (conn_to "QmMallory" a) |}.

(** A swarm of peer [QmLocal] that knows [addrs] for [QmRemote] and dials
    through [tpt]. *)
Definition sample_swarm (tpt : Transport) (addrs : list Multiaddr) (cs : list Conn) : Swarm :=
  {| local := "QmLocal";
     peers := {| ps_addrs := {[ "QmRemote" := addrs ]};
                 ps_pubkeys := ∅ |};
     backf := {| entries := None |};
     AddrBlocked := fun _ => false;
     TransportForDialing := fun _ => Some tpt;
     InterfaceListenAddresses := [addrListen];
     bestDest := None;
     conns := cs |}.

(** Collaborators: an empty peer id is invalid, every address is over a
    non-local IP, the best-connection view is empty, the fallback view
    returns the first registered connection to the peer and the connection
    table refuses nothing. *)
Definition sample_ext : Externals :=
  {| Validate := fun p => if decide (p = "") then Some (ErrExternal "empty peer ID") else None;
     AddrOverNonLocalIP := fun _ => true;
     bestConnToPeerWrapper := fun _ _ => None;
     bestConnToPeerFallbackWrapper := fun s p =>
       List.find (fun c => match RawConn c with
                           | Some rc => bool_decide (RemotePeer rc = p)
                           | None => false
                           end) (conns s);
     addConn_refuses := fun _ _ => None |}.

(** The same collaborators with a connection table that is closed. *)
Definition sample_ext_closed : Externals :=
  {| Validate := Validate sample_ext;
     AddrOverNonLocalIP := AddrOverNonLocalIP sample_ext;
     bestConnToPeerWrapper := bestConnToPeerWrapper sample_ext;
     bestConnToPeerFallbackWrapper := bestConnToPeerFallbackWrapper sample_ext;
     addConn_refuses := fun _ _ => Some (ErrExternal "swarm closed") |}.

(** A registry holding one record for [QmRemote]. *)
Definition sample_backoff (k u : Z) : DialBackoff :=
  {| entries := Some {[ "QmRemote" := {| tries := k; until := u |} ]} |}.

(** A registered connection to [QmRemote]. *)
Definition sample_conn : Conn :=
  {| NetConn := IsConn (conn_to "QmRemote" addrB); groups := ["QmRemote"] |}.

(** The race dials the only address, receives its answer and finds the
    address channel drained. *)
Definition sched_one_answer : list select_case := [SecondAddr; FirstResp 0%nat; SecondAddr].

(** ** The address filter in the words of the spec *)

(** A listen address takes part in the comparison when its protocol stack
    is exactly two protocols, the first of them /ip4 or /ip6. *)
Definition spec_ip_listen_addr (l : Multiaddr) : Prop :=
  exists c0 c1, Protocols l = [c0; c1] /\ (c0 = P_IP4 \/ c0 = P_IP6).

(** An address survives the filter when (1) it equals no such listen
    address, (2) it is over a non-local IP, (3) a transport exists for it
    and can dial it, and (4) the policy filter does not block it. *)
Definition spec_dialable (X : Externals) (s : Swarm) (a : Multiaddr) : Prop :=
  ~ (exists l, l ∈ InterfaceListenAddresses s /\ spec_ip_listen_addr l /\ a = l)
  /\ AddrOverNonLocalIP X a = true
  /\ (exists t, TransportForDialing s a = Some t /\ CanDial t a = true)
  /\ AddrBlocked s a = false.

(** The same test as a function, to filter with. *)
Definition spec_ip_listen_addrb (l : Multiaddr) : bool :=
  match Protocols l with
  | [c0; _] => (c0 =? P_IP4) || (c0 =? P_IP6)
  | _ => false
  end.

Definition spec_dialableb (X : Externals) (s : Swarm) (a : Multiaddr) : bool :=
  negb (existsb (fun l => spec_ip_listen_addrb l && bool_decide (a = l))
          (InterfaceListenAddresses s))
  && AddrOverNonLocalIP X a
  && match TransportForDialing s a with
     | Some t => CanDial t a
     | None => false
     end
  && negb (AddrBlocked s a).

(** A connection that is not one of our [conn.Conn]s. *)
Definition foreign_conn : Conn := {| NetConn := NotConn "pipe"; groups := [] |}.

(** * Properties *)

(** ** Machine integers *)

Lemma wrap64_id (z : Z) : in_int64 z -> wrap64 z = z.
Proof.
  unfold in_int64, wrap64. intros Hz.
  rewrite Z.mod_small; lia.
Qed.

Lemma wrap64_succ_neq (k : Z) : wrap64 (k + 1) <> k.
Proof.
  unfold wrap64. intros H.
  pose proof (Z.div_mod (k + 1 + 2 ^ 63) (2 ^ 64) ltac:(lia)) as Hd.
  lia.
Qed.

(** ** The backoff registry *)

Lemma entry_init (db : DialBackoff) (q : peer_ID) : entry (init db) q = entry db q.
Proof. destruct db as [[m|]]; unfold entry, init; simpl; [done | apply lookup_empty]. Qed.

Lemma default_init (db : DialBackoff) (q : peer_ID) :
  default ∅ (entries (init db)) !! q = entry db q.
Proof. destruct db as [[m|]]; unfold entry, init; simpl; [done | apply lookup_empty]. Qed.

Lemma entry_set_entry (db : DialBackoff) (p q : peer_ID) (bp : backoffPeer) :
  entry (set_entry (init db) p bp) q = if decide (p = q) then Some bp else entry db q.
Proof.
  unfold set_entry, entry at 1. simpl.
  rewrite lookup_insert. case_decide; [done | apply default_init].
Qed.

Lemma AddBackoff_absent (v : BackoffVars) (now : Z) (p : peer_ID) (db : DialBackoff) :
  entry db p = None ->
  entry (AddBackoff v now p db) p = Some {| tries := 1; until := now + BackoffBase v |}.
Proof.
  intros H. unfold AddBackoff. rewrite entry_init, H, entry_set_entry.
  by rewrite decide_True.
Qed.

Lemma AddBackoff_present (v : BackoffVars) (now : Z) (p : peer_ID) (db : DialBackoff)
    (bp : backoffPeer) :
  entry db p = Some bp ->
  entry (AddBackoff v now p db) p =
    Some {| tries := wrap64 (tries bp + 1); until := now + backoffTime v (tries bp) |}.
Proof.
  intros H. unfold AddBackoff. rewrite entry_init, H, entry_set_entry.
  by rewrite decide_True.
Qed.

Lemma AddBackoff_other (v : BackoffVars) (now : Z) (p q : peer_ID) (db : DialBackoff) :
  p <> q -> entry (AddBackoff v now p db) q = entry db q.
Proof.
  intros H. unfold AddBackoff. rewrite entry_init.
  destruct (entry db p); rewrite entry_set_entry; by rewrite decide_False.
Qed.

Lemma AddBackoff_changes (v : BackoffVars) (now : Z) (p : peer_ID) (db : DialBackoff) :
  AddBackoff v now p db <> db.
Proof.
  intros Heq. destruct (entry db p) as [bp|] eqn:E.
  - pose proof (AddBackoff_present v now p db bp E) as H.
    rewrite Heq, E in H. destruct bp as [k u]. simpl in H.
    injection H as Ht _. symmetry in Ht. by apply wrap64_succ_neq in Ht.
  - pose proof (AddBackoff_absent v now p db E) as H.
    rewrite Heq, E in H. discriminate.
Qed.

Lemma Backoff_entry (now : Z) (p q : peer_ID) (db : DialBackoff) :
  entry (fst (Backoff now p db)) q = entry db q.
Proof.
  unfold Backoff. destruct (entry (init db) p) as [bp|];
    [destruct (now <? until bp)|]; simpl; apply entry_init.
Qed.

Lemma Backoff_flag (now : Z) (p : peer_ID) (db : DialBackoff) :
  snd (Backoff now p db) =
    match entry db p with
    | Some bp => now <? until bp
    | None => false
    end.
Proof.
  unfold Backoff. rewrite entry_init.
  destruct (entry db p) as [bp|]; [destruct (now <? until bp)|]; done.
Qed.

Lemma Clear_entry (p q : peer_ID) (db : DialBackoff) :
  entry (Clear p db) q = if decide (p = q) then None else entry db q.
Proof.
  unfold Clear, entry at 1. simpl.
  rewrite lookup_delete. case_decide; [done | apply default_init].
Qed.

(** The quadratic formula of the documentation, for the default variables,
    as long as the 64-bit arithmetic does not wrap. *)
Lemma backoffTime_default_in_range (k : Z) :
  0 <= k <= 96038 ->
  backoffTime default_vars k =
    Z.min (BackoffMax default_vars)
          (BackoffBase default_vars + BackoffCoef default_vars * k ^ 2).
Proof.
  intros Hk. unfold backoffTime, default_vars, Minute, Second. simpl.
  assert (Hsq : 0 <= k * k <= 96038 * 96038) by nia.
  rewrite (wrap64_id (k * k)) by (unfold in_int64; lia).
  rewrite (wrap64_id (1000000000 * (k * k))) by (unfold in_int64; lia).
  rewrite wrap64_id by (unfold in_int64; lia).
  replace (k ^ 2) with (k * k) by lia.
  destruct (Z.gtb_spec (1000000000 * 5 + 1000000000 * (k * k)) (60 * 1000000000 * 5)); lia.
Qed.

(** In that range [AddBackoff] does what the documentation says. *)
Lemma AddBackoff_default_in_range (now : Z) (p : peer_ID) (db : DialBackoff)
    (bp : backoffPeer) :
  entry db p = Some bp ->
  0 <= tries bp <= 96038 ->
  entry (AddBackoff default_vars now p db) p =
    Some {| tries := tries bp + 1;
            until := now + Z.min (BackoffMax default_vars)
                             (BackoffBase default_vars
                              + BackoffCoef default_vars * tries bp ^ 2) |}.
Proof.
  intros H Hk. rewrite (AddBackoff_present _ _ _ _ _ H).
  rewrite backoffTime_default_in_range by done.
  rewrite wrap64_id by (unfold in_int64; lia). done.
Qed.

(** Calls of [AddBackoff] for a peer with no record, at any clock
    readings and with no [Clear] in between, count the calls in [tries]. *)
Lemma AddBackoff_calls_tries (v : BackoffVars) (p : peer_ID) (db : DialBackoff)
    (nows : list Z) :
  entry db p = None ->
  nows <> [] ->
  Z.of_nat (length nows) < 2 ^ 63 ->
  exists u,
    entry (fold_left (fun db now => AddBackoff v now p db) nows db) p
    = Some {| tries := Z.of_nat (length nows); until := u |}.
Proof.
  intros Hdb. induction nows as [|now l IH] using rev_ind; [done|].
  intros _ Hlen. rewrite length_app in Hlen. cbn [length] in Hlen.
  rewrite fold_left_app. cbn [fold_left].
  destruct l as [|t l].
  - cbn [fold_left]. rewrite (AddBackoff_absent _ _ _ _ Hdb). eauto.
  - cbn [length] in Hlen.
    destruct IH as [u Hu]; [done | cbn [length]; lia |].
    rewrite (AddBackoff_present _ _ _ _ _ Hu). cbn [tries].
    rewrite length_app. cbn [length] in *.
    rewrite wrap64_id by (unfold in_int64; lia).
    replace (Z.of_nat (S (length l)) + 1) with (Z.of_nat (S (length l) + 1)) by lia.
    eauto.
Qed.

(** C1, at the first [tries] where the 64-bit product wraps.  Starting
    from the zero registry, 96039 calls of [AddBackoff] for a peer (at any
    clock readings, with no [Clear] in between) leave an entry whose
    [tries] is 96039.  With the default variables, the next [AddBackoff]
    increments [tries] to 96040 but sets [until] about 292 years before
    [now], not to [now + min(BackoffMax, BackoffBase + BackoffCoef * 96039^2)]
    (which is [now + 5m]); the peer is then not backed off at all. *)
Theorem AddBackoff_wraps_at_96039 :
  (forall nows : list Z,
     Z.of_nat (length nows) = 96039 ->
     exists u,
       entry (fold_left (fun db now => AddBackoff default_vars now "QmRemote" db)
                nows {| entries := None |}) "QmRemote"
       = Some {| tries := 96039; until := u |})
  /\ (forall u now : Z,
       entry (AddBackoff default_vars now "QmRemote" (sample_backoff 96039 u)) "QmRemote"
       = Some {| tries := 96040; until := now - 9223254547709551616 |}
       /\ now - 9223254547709551616
          <> now + Z.min (BackoffMax default_vars)
                         (BackoffBase default_vars
                          + BackoffCoef default_vars * 96039 ^ 2)
       /\ now + Z.min (BackoffMax default_vars)
                      (BackoffBase default_vars
                       + BackoffCoef default_vars * 96039 ^ 2)
          = now + 5 * Minute
       /\ snd (Backoff now "QmRemote"
                 (AddBackoff default_vars now "QmRemote" (sample_backoff 96039 u)))
          = false).
Proof.
  split.
  - intros nows Hlen.
    destruct (AddBackoff_calls_tries default_vars "QmRemote" {| entries := None |} nows)
      as [u Hu]; [done | by intros -> | lia |].
    rewrite Hlen in Hu. eauto.
  - intros u now.
    assert (He : entry (sample_backoff 96039 u) "QmRemote"
                 = Some {| tries := 96039; until := u |})
      by (unfold sample_backoff, entry; simpl; apply lookup_singleton_eq).
    assert (Ht : backoffTime default_vars 96039 = - 9223254547709551616)
      by (vm_compute; reflexivity).
    assert (Hm : Z.min (BackoffMax default_vars)
                   (BackoffBase default_vars + BackoffCoef default_vars * 96039 ^ 2)
                 = 5 * Minute) by (vm_compute; reflexivity).
    pose proof (AddBackoff_present default_vars now "QmRemote" _ _ He) as Ha.
    simpl tries in Ha. rewrite Ht in Ha.
    replace (wrap64 (96039 + 1)) with 96040 in Ha by (vm_compute; reflexivity).
    replace (now + - 9223254547709551616) with (now - 9223254547709551616) in Ha by lia.
    split; [exact Ha|]. rewrite Hm. unfold Minute, Second.
    split; [lia|]. split; [lia|].
    rewrite Backoff_flag, Ha. simpl until. apply Z.ltb_ge. lia.
Qed.

(** The formula of the documentation, for any variables, as long as the
    64-bit arithmetic does not wrap. *)
Lemma backoffTime_no_wrap (v : BackoffVars) (k : Z) :
  in_int64 (k * k) ->
  in_int64 (BackoffCoef v * (k * k)) ->
  in_int64 (BackoffBase v + BackoffCoef v * (k * k)) ->
  backoffTime v k = Z.min (BackoffMax v) (BackoffBase v + BackoffCoef v * k ^ 2).
Proof.
  intros H1 H2 H3. unfold backoffTime.
  rewrite (wrap64_id (k * k)) by done.
  rewrite (wrap64_id (BackoffCoef v * (k * k))) by done.
  rewrite wrap64_id by done.
  replace (k ^ 2) with (k * k) by lia.
  destruct (Z.gtb_spec (BackoffBase v + BackoffCoef v * (k * k)) (BackoffMax v)); lia.
Qed.

(** C10: the passage of time removes no backoff entry.  Once the [until]
    instant of the entry of [p] is not in the future, [Backoff p] answers
    false and leaves the entry, with its [tries], in the registry.  A later
    [AddBackoff p] then computes the wait from the accumulated [tries] [k]
    and counts one more try: as long as the 64-bit arithmetic does not
    wrap, the new entry has [tries = k + 1] and
    [until = now' + min(BackoffMax, BackoffBase + BackoffCoef * k^2)]; with
    the default variables and [1 <= k <= 96038] that is
    [now' + min(5m, 5s + k^2 * 1s)], which is later than the
    [now' + 5s] of a restart, and the entry is not the restart entry with
    [tries = 1].  Neither [Backoff] nor [AddBackoff], for any peer and
    clock, makes an existing entry disappear; [Clear p] does. *)
Theorem backoff_entry_outlives_until (v : BackoffVars) (now now' : Z) (p : peer_ID)
    (db : DialBackoff) (bp : backoffPeer) :
  entry db p = Some bp ->
  until bp <= now ->
  let db1 := fst (Backoff now p db) in
  let k := tries bp in
  snd (Backoff now p db) = false
  /\ entry db1 p = Some bp
  /\ entry (AddBackoff v now' p db1) p
       = Some {| tries := wrap64 (k + 1); until := now' + backoffTime v k |}
  /\ (in_int64 (k + 1) -> in_int64 (k * k) ->
      in_int64 (BackoffCoef v * (k * k)) ->
      in_int64 (BackoffBase v + BackoffCoef v * (k * k)) ->
      entry (AddBackoff v now' p db1) p
      = Some {| tries := k + 1;
                until := now' + Z.min (BackoffMax v)
                                  (BackoffBase v + BackoffCoef v * k ^ 2) |})
  /\ (1 <= k <= 96038 ->
      entry (AddBackoff default_vars now' p db1) p
      = Some {| tries := k + 1;
                until := now' + Z.min (5 * Minute) (5 * Second + k ^ 2 * Second) |}
      /\ now' + BackoffBase default_vars
         < now' + Z.min (5 * Minute) (5 * Second + k ^ 2 * Second)
      /\ entry (AddBackoff default_vars now' p db1) p
         <> Some {| tries := 1; until := now' + BackoffBase default_vars |})
  /\ (forall (q r : peer_ID) (t : Z), is_Some (entry db q) ->
        is_Some (entry (fst (Backoff t r db)) q)
        /\ is_Some (entry (AddBackoff v t r db) q))
  /\ entry (Clear p db) p = None.
Proof.
  intros Hp Hu db1 k. subst db1 k.
  assert (Hp1 : entry (fst (Backoff now p db)) p = Some bp)
    by (by rewrite Backoff_entry).
  assert (Hdef : 1 <= tries bp <= 96038 ->
            entry (AddBackoff default_vars now' p (fst (Backoff now p db))) p
            = Some {| tries := tries bp + 1;
                      until := now' + Z.min (5 * Minute)
                                        (5 * Second + tries bp ^ 2 * Second) |}).
  { intros Hk. rewrite (AddBackoff_default_in_range _ _ _ _ Hp1) by lia.
    unfold default_vars; simpl. do 3 f_equal. lia. }
  split; [|split; [|split; [|split; [|split; [|split]]]]].
  - rewrite Backoff_flag, Hp. apply Z.ltb_ge. exact Hu.
  - exact Hp1.
  - by apply AddBackoff_present.
  - intros H0 H1 H2 H3. rewrite (AddBackoff_present _ _ _ _ _ Hp1).
    rewrite wrap64_id by done. by rewrite backoffTime_no_wrap.
  - intros Hk. split; [by apply Hdef | split].
    + unfold default_vars, Minute, Second; simpl. nia.
    + rewrite Hdef by done. intros [= H _]. lia.
  - intros q r t Hq. split; [by rewrite Backoff_entry|].
    destruct (decide (r = q)) as [->|Hne].
    + destruct (entry db q) as [bq|] eqn:E.
      * rewrite (AddBackoff_present _ _ _ _ _ E). eauto.
      * rewrite (AddBackoff_absent _ _ _ _ E). eauto.
    + by rewrite AddBackoff_other.
  - rewrite Clear_entry. by rewrite decide_True.
Qed.

Lemma backoff_entry_outlives_until_witness :
  entry (sample_backoff 3 10) "QmRemote" = Some {| tries := 3; until := 10 |}
  /\ 10 <= 20
  /\ snd (Backoff 20 "QmRemote" (sample_backoff 3 10)) = false
  /\ entry (AddBackoff default_vars 30 "QmRemote"
              (fst (Backoff 20 "QmRemote" (sample_backoff 3 10)))) "QmRemote"
     = Some {| tries := 4; until := 30 + 14 * Second |}
  /\ entry (AddBackoff default_vars 30 "QmRemote"
              (fst (Backoff 20 "QmRemote" (sample_backoff 3 10)))) "QmRemote"
     <> Some {| tries := 1; until := 30 + 5 * Second |}.
Proof.
  assert (H1 : entry (sample_backoff 3 10) "QmRemote" = Some {| tries := 3; until := 10 |})
    by (vm_compute; reflexivity).
  assert (H2 : 10 <= 20) by lia.
  pose proof (backoff_entry_outlives_until default_vars 20 30 "QmRemote"
                (sample_backoff 3 10) {| tries := 3; until := 10 |} H1 H2) as H.
  simpl in H. destruct H as (Ha & _ & _ & _ & Hd & _).
  destruct Hd as (Hb & _ & Hc); [lia|].
  split; [exact H1 | split; [exact H2 | split; [exact Ha | split; [exact Hb | exact Hc]]]].
Defined.

(** ** The monad *)

Ltac munfold :=
  unfold mbind, M_bind, mret, M_ret, get, modify, emit, stuck in *.

(** ** One address: [dialAddr] *)

(** [dialAddr] always returns and leaves the swarm as it was. *)
Lemma dialAddr_total (p : peer_ID) (addr : Multiaddr) (s : Swarm) :
  exists r tr, dialAddr p addr s = Some (r, s, tr).
Proof.
  unfold dialAddr. munfold.
  destruct (decide (local s = p)); [eauto|].
  destruct (TransportForDialing s addr) as [tpt|]; [|eauto].
  simpl. destruct (Dial tpt addr p) as [connC|err]; [|eauto].
  destruct (decide (RemotePeer connC <> p)); simpl; eauto.
Qed.

Lemma dialAddr_state (p : peer_ID) (addr : Multiaddr) (s s' : Swarm)
    (r : result TConn) (tr : list Event) :
  dialAddr p addr s = Some (r, s', tr) -> s' = s.
Proof.
  destruct (dialAddr_total p addr s) as (r0 & tr0 & H). rewrite H. congruence.
Qed.

(** A connection that [dialAddr] returns is a connection to [p]. *)
Lemma dialAddr_ok_peer (p : peer_ID) (addr : Multiaddr) (s s' : Swarm)
    (c : TConn) (tr : list Event) :
  dialAddr p addr s = Some (Ok c, s', tr) -> RemotePeer c = p.
Proof.
  unfold dialAddr. munfold.
  destruct (decide (local s = p)); [discriminate|].
  destruct (TransportForDialing s addr) as [tpt|]; [|discriminate].
  simpl. destruct (Dial tpt addr p) as [connC|err]; [|discriminate].
  destruct (decide (RemotePeer connC <> p)) as [Hne|He]; simpl; [discriminate|].
  intros H. injection H as <- _ _.
  destruct (decide (RemotePeer connC = p)); [done | contradiction].
Qed.

(** What [dialAddr] does with a connection to the wrong peer. *)
Lemma dialAddr_wrong_peer (p : peer_ID) (addr : Multiaddr) (s : Swarm)
    (tpt : Transport) (c : TConn) :
  local s <> p ->
  TransportForDialing s addr = Some tpt ->
  Dial tpt addr p = Ok c ->
  RemotePeer c <> p ->
  dialAddr p addr s
    = Some (Err (Errorf_bug p (RemotePeer c) (tpt_name tpt)), s,
            [EvTransportDial (tpt_name tpt) addr p; EvClose c]).
Proof.
  intros Hl Ht Hd Hne. unfold dialAddr. munfold.
  rewrite decide_False by done. rewrite Ht. simpl. rewrite Hd.
  rewrite decide_True by done. done.
Qed.

(** C2: a connection returned by a successful [dialAddr(ctx, p, addr)]
    has [RemotePeer() = p]; and when the transport yields a connection
    whose remote peer differs from [p], [dialAddr] closes that connection
    and returns an error instead of it. *)
Theorem dialAddr_remote_peer (p : peer_ID) (addr : Multiaddr) (s : Swarm) :
  (exists r tr, dialAddr p addr s = Some (r, s, tr))
  /\ (forall c s' tr, dialAddr p addr s = Some (Ok c, s', tr) -> RemotePeer c = p)
  /\ (forall tpt c,
        local s <> p ->
        TransportForDialing s addr = Some tpt ->
        Dial tpt addr p = Ok c ->
        RemotePeer c <> p ->
        exists err,
          dialAddr p addr s
            = Some (Err err, s, [EvTransportDial (tpt_name tpt) addr p; EvClose c])).
Proof.
  split; [apply dialAddr_total | split].
  - intros c s' tr. apply dialAddr_ok_peer.
  - intros tpt c Hl Ht Hd Hne. eexists. by apply dialAddr_wrong_peer.
Qed.

Lemma dialAddr_remote_peer_witness :
  (dialAddr "QmRemote" addrA (sample_swarm tcp_ok [addrA] [])
     = Some (Ok (conn_to "QmRemote" addrA), sample_swarm tcp_ok [addrA] [],
             [EvTransportDial "tcp" addrA "QmRemote"])
   /\ RemotePeer (conn_to "QmRemote" addrA) = "QmRemote")
  /\ (local (sample_swarm tcp_wrong_peer [addrA] []) <> "QmRemote"
      /\ TransportForDialing (sample_swarm tcp_wrong_peer [addrA] []) addrA
           = Some tcp_wrong_peer
      /\ Dial tcp_wrong_peer addrA "QmRemote" = Ok (conn_to "QmMallory" addrA)
      /\ RemotePeer (conn_to "QmMallory" addrA) <> "QmRemote"
      /\ exists err,
           dialAddr "QmRemote" addrA (sample_swarm tcp_wrong_peer [addrA] [])
             = Some (Err err, sample_swarm tcp_wrong_peer [addrA] [],
                     [EvTransportDial "tcp" addrA "QmRemote";
                      EvClose (conn_to "QmMallory" addrA)])).
Proof.
  split.
  - assert (H : dialAddr "QmRemote" addrA (sample_swarm tcp_ok [addrA] [])
                = Some (Ok (conn_to "QmRemote" addrA), sample_swarm tcp_ok [addrA] [],
                        [EvTransportDial "tcp" addrA "QmRemote"]))
      by (vm_compute; reflexivity).
    split; [exact H|].
    destruct (dialAddr_remote_peer "QmRemote" addrA (sample_swarm tcp_ok [addrA] []))
      as (_ & Hok & _).
    exact (Hok _ _ _ H).
  - assert (H1 : local (sample_swarm tcp_wrong_peer [addrA] []) <> "QmRemote")
      by (vm_compute; discriminate).
    assert (H2 : RemotePeer (conn_to "QmMallory" addrA) <> "QmRemote")
      by (vm_compute; discriminate).
    destruct (dialAddr_remote_peer "QmRemote" addrA (sample_swarm tcp_wrong_peer [addrA] []))
      as (_ & _ & Hbad).
    split; [exact H1 | split; [reflexivity | split; [reflexivity | split; [exact H2|]]]].
    exact (Hbad tcp_wrong_peer (conn_to "QmMallory" addrA) H1 eq_refl eq_refl H2).
Defined.

(** ** The address race: [dialAddrs] *)

(** An iteration leaves the swarm as it was, and a connection it returns
    is a connection to [p]. *)
Lemma iteration_inv (p : peer_ID) (c : select_case) (st : race) (s s' : Swarm)
    (x : step) (tr : list Event) :
  iteration p c st s = Some (x, s', tr) ->
  s' = s /\ (forall conn, x = Return (Ok conn) -> RemotePeer conn = p).
Proof.
  assert (Hresp : forall j, on_resp p j st s = Some (x, s', tr) ->
            s' = s /\ (forall conn, x = Return (Ok conn) -> RemotePeer conn = p)).
  { intros j. unfold on_resp, job_answer. munfold.
    destruct (inflight st !! j) as [a|]; [|discriminate].
    destruct (dialAddr p a s) as [[[r s1] tr1]|] eqn:E; [|discriminate].
    apply dialAddr_state in E as Hs. subst s1.
    destruct r as [conn|err]; simpl; intros H; injection H as <- <- _.
    - split; [done|]. intros conn' [= <-]. by apply dialAddr_ok_peer in E.
    - split; [done|]. discriminate. }
  destruct c as [r|j|  |r|j]; simpl; try apply Hresp.
  - munfold. unfold on_done. intros [= <- <- _]. split; [done|]. discriminate.
  - unfold limitedDial. munfold.
    destruct (remoteAddrs st) as [[|addr rest]|]; simpl; [| |discriminate].
    + intros [= <- <- _]. split; [done|]. discriminate.
    + intros [= <- <- _]. split; [done|]. discriminate.
  - munfold. unfold on_done. intros [= <- <- _]. split; [done|]. discriminate.
Qed.

Lemma dialAddrs_loop_inv (p : peer_ID) (sched : list select_case) :
  forall (st : race) (s s' : Swarm) (r : result TConn) (tr : list Event),
    dialAddrs_loop p sched st s = Some (r, s', tr) ->
    s' = s /\ (forall conn, r = Ok conn -> RemotePeer conn = p).
Proof.
  induction sched as [|c sched IH]; intros st s s' r tr; simpl;
    destruct (loop_cond st).
  - discriminate.
  - munfold. intros [= <- <- _]. split; [done|]. discriminate.
  - munfold.
    destruct (iteration p c st s) as [[[x s1] tr1]|] eqn:E; [|discriminate].
    apply iteration_inv in E as [-> Hx].
    destruct x as [st1|r1].
    + destruct (dialAddrs_loop p sched st1 s) as [[[r2 s2] tr2]|] eqn:E2;
        [|discriminate].
      intros [= <- <- _]. by apply IH in E2.
    + intros [= <- <- _]. split; [done|]. intros conn ->. by apply Hx.
  - munfold. intros [= <- <- _]. split; [done|]. discriminate.
Qed.

Lemma dialAddrs_inv (p : peer_ID) (addrs : list Multiaddr) (sched : list select_case)
    (s s' : Swarm) (r : result TConn) (tr : list Event) :
  dialAddrs p addrs sched s = Some (r, s', tr) ->
  s' = s /\ (forall conn, r = Ok conn -> RemotePeer conn = p).
Proof.
  unfold dialAddrs. munfold.
  destruct (dialAddrs_loop _ _ _ _) as [[[r1 s1] tr1]|] eqn:E; [|discriminate].
  intros [= <- <- _]. by apply dialAddrs_loop_inv in E.
Qed.

(** The loop leaves through the [ctx.Done()] case of either select with
    [exitErr], which is replaced by [ctx.Err()] only when it still is the
    default. *)
Lemma dialAddrs_loop_done (p : peer_ID) (r : ctx_reason) (c : select_case)
    (sched : list select_case) (st : race) (s : Swarm) :
  c = FirstCtxDone r \/ c = SecondCtxDone r ->
  loop_cond st = true ->
  dialAddrs_loop p (c :: sched) st s
    = Some (Err (if decide (exitErr st = ErrNoRemoteAddrs)
                 then ctx_Err r else exitErr st), s, []).
Proof.
  intros [-> | ->] Hc; simpl; rewrite Hc; reflexivity.
Qed.

(** An error answer becomes [exitErr]. *)
Lemma on_resp_continue (p : peer_ID) (j : nat) (st st' : race) (s s' : Swarm)
    (tr : list Event) :
  on_resp p j st s = Some (Continue st', s', tr) ->
  exists a, inflight st !! j = Some a
            /\ dialAddr p a s = Some (Err (exitErr st'), s, tr).
Proof.
  unfold on_resp, job_answer. munfold.
  destruct (inflight st !! j) as [a|]; [|discriminate].
  destruct (dialAddr p a s) as [[[r s1] tr1]|] eqn:E; [|discriminate].
  apply dialAddr_state in E as Hs. subst s1.
  destruct r as [conn|err]; simpl; [discriminate|].
  intros [= <- <- <-]. exists a. split; [done|].
  simpl. by rewrite !app_nil_r.
Qed.

(** C6, as the code has it: when the race observes the cancellation of
    its context, in either select, it exits with an error, namely the
    latest per-address error it has observed; only when it has observed
    none ([exitErr] still is the default [ErrNoRemoteAddrs]) does it return
    the context's own reason.  Every error answer of a job is recorded as
    [exitErr], and a cancellation met before any answer is reported as the
    context's reason. *)
Theorem dialAddrs_ctx_done (p : peer_ID) (r : ctx_reason) (c : select_case)
    (sched : list select_case) (st : race) (s : Swarm) :
  c = FirstCtxDone r \/ c = SecondCtxDone r ->
  loop_cond st = true ->
  dialAddrs_loop p (c :: sched) st s
    = Some (Err (if decide (exitErr st = ErrNoRemoteAddrs)
                 then ctx_Err r else exitErr st), s, [])
  /\ (forall j st' s' tr,
        (iteration p (FirstResp j) st s = Some (Continue st', s', tr)
         \/ iteration p (SecondResp j) st s = Some (Continue st', s', tr)) ->
        exists a, inflight st !! j = Some a
                  /\ dialAddr p a s = Some (Err (exitErr st'), s, tr))
  /\ (forall addrs,
        dialAddrs p addrs (c :: sched) s
          = Some (Err (ctx_Err r), s, [EvClearAllPeerDials p])).
Proof.
  intros Hc Hl. split; [by apply dialAddrs_loop_done | split].
  - intros j st' s' tr [H | H]; simpl in H; by apply on_resp_continue in H.
  - intros addrs. unfold dialAddrs. munfold.
    rewrite (dialAddrs_loop_done p r c sched
               {| remoteAddrs := Some addrs; active := 0;
                  exitErr := ErrNoRemoteAddrs; inflight := [] |} s Hc eq_refl).
    reflexivity.
Qed.

Lemma dialAddrs_ctx_done_witness :
  (FirstCtxDone CtxCanceled = FirstCtxDone CtxCanceled
   \/ FirstCtxDone CtxCanceled = SecondCtxDone CtxCanceled)
  /\ loop_cond {| remoteAddrs := None; active := 1;
                  exitErr := ErrNoTransport; inflight := [addrA] |} = true
  /\ dialAddrs_loop "QmRemote" [FirstCtxDone CtxCanceled]
       {| remoteAddrs := None; active := 1;
          exitErr := ErrNoTransport; inflight := [addrA] |}
       (sample_swarm tcp_refused [addrA] [])
     = Some (Err ErrNoTransport, sample_swarm tcp_refused [addrA] [], []).
Proof.
  pose proof (dialAddrs_ctx_done "QmRemote" CtxCanceled (FirstCtxDone CtxCanceled) []
                {| remoteAddrs := None; active := 1;
                   exitErr := ErrNoTransport; inflight := [addrA] |}
                (sample_swarm tcp_refused [addrA] [])
                (or_introl eq_refl) eq_refl) as (H & _).
  split; [by left | split; [reflexivity | exact H]].
Defined.

(** C6 as stated fails: the race dials [addrA], the dial is refused, then
    the context is cancelled; the race returns the refusal it observed,
    not [context.Canceled]. *)
Lemma dialAddrs_prefers_observed_error :
  dialAddrs "QmRemote" [addrA] [SecondAddr; FirstResp 0; FirstCtxDone CtxCanceled]
    (sample_swarm tcp_refused [addrA] [])
  = Some (Err (Errorf_dialAddr "QmLocal" "QmRemote" (ErrExternal "refused")),
          sample_swarm tcp_refused [addrA] [],
          [EvAddDialJob "QmRemote" addrA; EvTransportDial "tcp" addrA "QmRemote";
           EvClearAllPeerDials "QmRemote"])
  /\ Errorf_dialAddr "QmLocal" "QmRemote" (ErrExternal "refused") <> ctx_Err CtxCanceled.
Proof. split; [vm_compute; reflexivity | discriminate]. Qed.

(** ** Connection setup *)

Lemma newConnSetup_conn (rc : TConn) (gs : list string) (s : Swarm) :
  newConnSetup {| NetConn := IsConn rc; groups := gs |} s
  = Some (Ok (AddGroup (RemotePeer rc) {| NetConn := IsConn rc; groups := gs |}),
          match RemotePublicKey rc with
          | Some pk => set_peers (AddPubKey (RemotePeer rc) pk) s
          | None => s
          end, []).
Proof.
  unfold newConnSetup, wrapConn, RawConn. simpl. munfold.
  destruct (RemotePublicKey rc); reflexivity.
Qed.

Lemma addConn_run (X : Externals) (tc : TConn) (dir : Direction) (s : Swarm) :
  addConn X tc dir s
  = match addConn_refuses X s tc with
    | Some err => Some (Err err, s, [])
    | None =>
        Some (Ok {| NetConn := IsConn tc; groups := [] |},
              set_conns (fun cs => cs ++ [{| NetConn := IsConn tc; groups := [] |}]) s,
              [])
    end.
Proof. unfold addConn. munfold. by destruct (addConn_refuses X s tc). Qed.

(** ** The dial engine: [dial] *)

(** [dial] never changes the backoff registry, the peer store or the
    local peer.  A failed [dial] leaves the whole swarm as it was; a
    successful one returns a wrapper of a connection to [p], which it has
    added to the connection table. *)
Lemma dial_inv (X : Externals) (p : peer_ID) (sched : list select_case)
    (s s' : Swarm) (r : result Conn) (tr : list Event) :
  dial X p sched s = Some (r, s', tr) ->
  backf s' = backf s /\ peers s' = peers s /\ local s' = local s
  /\ match r with
     | Err _ => s' = s
     | Ok c =>
         exists rc, RawConn c = Some rc
                    /\ RemotePeer rc = p
                    /\ conns s' = conns s ++ [c]
     end.
Proof.
  unfold dial. munfold.
  destruct (decide (p = local s)); [by intros [= <- <- _]|].
  destruct (length (Addrs (peers s) p) =? 0)%nat; [by intros [= <- <- _]|].
  destruct (length (filterKnownUndialables X s (Addrs (peers s) p)) =? 0)%nat;
    [by intros [= <- <- _]|].
  match goal with
  | |- context [dialAddrs p ?g sched s] =>
      destruct (dialAddrs p g sched s) as [[[r1 s1] tr1]|] eqn:E; [|discriminate]
  end.
  apply dialAddrs_inv in E as [-> Hpeer].
  destruct r1 as [connC|err]; [|by intros [= <- <- _]].
  rewrite addConn_run. destruct (addConn_refuses X s connC) as [err|].
  - by intros [= <- <- _].
  - intros [= <- <- _]. simpl. repeat split; try done.
    exists connC. rewrite (Hpeer connC eq_refl). done.
Qed.

(** C8: for a peer [p] other than the local one (for which [dial] asks
    the peer store), [dial(ctx, p)] fails with "no addresses" whenever the
    peer store has no address for [p], and with "no good addresses"
    whenever it has some and the filter removes them all; in both cases
    it returns without having handed a dial job to the limiter (it makes
    no collaborator call at all) and leaves the swarm as it was. *)
Theorem dial_no_addresses (X : Externals) (p : peer_ID) (sched : list select_case)
    (s : Swarm) :
  p <> local s ->
  (Addrs (peers s) p = [] ->
     dial X p sched s = Some (Err (errors_New "no addresses"), s, []))
  /\ (Addrs (peers s) p <> [] ->
      filterKnownUndialables X s (Addrs (peers s) p) = [] ->
      dial X p sched s = Some (Err (errors_New "no good addresses"), s, [])).
Proof.
  intros Hp. split.
  - intros Ha. unfold dial. munfold.
    rewrite decide_False by done. by rewrite Ha.
  - intros Ha Hf. unfold dial. munfold.
    rewrite decide_False by done.
    destruct (Addrs (peers s) p) as [|a l] eqn:E; [done|].
    simpl. by rewrite Hf.
Qed.

Lemma dial_no_addresses_witness :
  "QmRemote" <> local (sample_swarm tcp_ok [] [])
  /\ (Addrs (peers (sample_swarm tcp_ok [] [])) "QmRemote" = []
      /\ dial sample_ext "QmRemote" [SecondAddr] (sample_swarm tcp_ok [] [])
         = Some (Err (errors_New "no addresses"), sample_swarm tcp_ok [] [], []))
  /\ (Addrs (peers (sample_swarm tcp_ok [addrListen] [])) "QmRemote" <> []
      /\ filterKnownUndialables sample_ext (sample_swarm tcp_ok [addrListen] [])
           (Addrs (peers (sample_swarm tcp_ok [addrListen] [])) "QmRemote") = []
      /\ dial sample_ext "QmRemote" [SecondAddr] (sample_swarm tcp_ok [addrListen] [])
         = Some (Err (errors_New "no good addresses"),
                 sample_swarm tcp_ok [addrListen] [], [])).
Proof.
  assert (Hp : forall l, "QmRemote" <> local (sample_swarm tcp_ok l []))
    by (intros l; vm_compute; discriminate).
  assert (H1 : Addrs (peers (sample_swarm tcp_ok [] [])) "QmRemote" = [])
    by (vm_compute; reflexivity).
  assert (H2 : Addrs (peers (sample_swarm tcp_ok [addrListen] [])) "QmRemote" <> [])
    by (vm_compute; discriminate).
  assert (H3 : filterKnownUndialables sample_ext (sample_swarm tcp_ok [addrListen] [])
                 (Addrs (peers (sample_swarm tcp_ok [addrListen] [])) "QmRemote") = [])
    by (vm_compute; reflexivity).
  split; [exact (Hp [])|]. split.
  - split; [exact H1|].
    exact (proj1 (dial_no_addresses sample_ext "QmRemote" [SecondAddr]
                    (sample_swarm tcp_ok [] []) (Hp [])) H1).
  - split; [exact H2|]. split; [exact H3|].
    exact (proj2 (dial_no_addresses sample_ext "QmRemote" [SecondAddr]
                    (sample_swarm tcp_ok [addrListen] []) (Hp [addrListen])) H2 H3).
Defined.

(** ** The facade: [doDial] and [dialPeer] *)

(** C9: for every schedule (every behaviour of the context) and every
    valid peer id [p] equal to the local peer, [dialPeer(ctx, p)] returns
    [ErrDialToSelf]; it makes no transport dial call (no collaborator call
    at all) and leaves the swarm as it was.  [dial] has the same check. *)
Theorem dialPeer_self (X : Externals) (v : BackoffVars) (now now' : Z) (p : peer_ID)
    (sched : list select_case) (s : Swarm) :
  Validate X p = None ->
  p = local s ->
  dialPeer X v now now' p sched s = Some (Err ErrDialToSelf, s, [])
  /\ dial X p sched s = Some (Err ErrDialToSelf, s, []).
Proof.
  intros Hv Hp. split.
  - unfold dialPeer. rewrite Hv. munfold. by rewrite decide_True.
  - unfold dial. munfold. by rewrite decide_True.
Qed.

Lemma dialPeer_self_witness :
  Validate sample_ext "QmLocal" = None
  /\ "QmLocal" = local (sample_swarm tcp_ok [addrA] [])
  /\ dialPeer sample_ext default_vars 0 1 "QmLocal" [SecondAddr; FirstResp 0]
       (sample_swarm tcp_ok [addrA] [])
     = Some (Err ErrDialToSelf, sample_swarm tcp_ok [addrA] [], []).
Proof.
  split; [reflexivity | split; [reflexivity|]].
  exact (proj1 (dialPeer_self sample_ext default_vars 0 1 "QmLocal"
                  [SecondAddr; FirstResp 0] (sample_swarm tcp_ok [addrA] [])
                  eq_refl eq_refl)).
Defined.

(** [doDial] after a failed [dial]. *)
Lemma doDial_after_error (X : Externals) (v : BackoffVars) (now : Z) (p : peer_ID)
    (sched : list select_case) (s s1 : Swarm) (err : error) (tr : list Event) :
  bestConnToPeerWrapper X s p = None ->
  dial X p sched s = Some (Err err, s1, tr) ->
  doDial X v now p sched s =
    match bestConnToPeerFallbackWrapper X s1 p with
    | Some conn => Some (Ok conn, s1, tr)
    | None =>
        Some (Err (Errorf_doDial err),
              (if decide (err <> Canceled)
               then set_backf (AddBackoff v now p) s1 else s1), tr)
    end.
Proof.
  intros Hb Hd. unfold doDial. munfold. rewrite Hb, Hd. simpl.
  destruct (bestConnToPeerFallbackWrapper X s1 p).
  - by rewrite !app_nil_r.
  - destruct (decide (err <> Canceled)); simpl; by rewrite !app_nil_r.
Qed.

(** C5: if [dial] returns an error and, at that moment, the fallback view
    of the connection registry has a connection to the peer, [doDial]
    returns that connection and no error.  It leaves the swarm as [dial]
    left it: the error is dropped and [AddBackoff] is not called. *)
Theorem doDial_fallback (X : Externals) (v : BackoffVars) (now : Z) (p : peer_ID)
    (sched : list select_case) (s s1 : Swarm) (err : error) (tr : list Event)
    (c : Conn) :
  bestConnToPeerWrapper X s p = None ->
  dial X p sched s = Some (Err err, s1, tr) ->
  bestConnToPeerFallbackWrapper X s1 p = Some c ->
  exists s2,
    doDial X v now p sched s = Some (Ok c, s2, tr)
    /\ s2 = s1
    /\ backf s2 <> AddBackoff v now p (backf s1).
Proof.
  intros Hb Hd Hf. exists s1. split; [|split].
  - rewrite (doDial_after_error X v now p sched s s1 err tr Hb Hd). by rewrite Hf.
  - reflexivity.
  - intros H. symmetry in H. by apply AddBackoff_changes in H.
Qed.

Lemma doDial_fallback_witness :
  let s := sample_swarm tcp_refused [addrA] [sample_conn] in
  let err := Errorf_dialAddr "QmLocal" "QmRemote" (ErrExternal "refused") in
  let tr := [EvAddDialJob "QmRemote" addrA; EvTransportDial "tcp" addrA "QmRemote";
             EvClearAllPeerDials "QmRemote"] in
  bestConnToPeerWrapper sample_ext s "QmRemote" = None
  /\ dial sample_ext "QmRemote" sched_one_answer s = Some (Err err, s, tr)
  /\ bestConnToPeerFallbackWrapper sample_ext s "QmRemote" = Some sample_conn
  /\ doDial sample_ext default_vars 7 "QmRemote" sched_one_answer s
     = Some (Ok sample_conn, s, tr).
Proof.
  intros s err tr.
  assert (Hd : dial sample_ext "QmRemote" sched_one_answer s = Some (Err err, s, tr))
    by (vm_compute; reflexivity).
  assert (Hf : bestConnToPeerFallbackWrapper sample_ext s "QmRemote" = Some sample_conn)
    by (vm_compute; reflexivity).
  split; [reflexivity | split; [exact Hd | split; [exact Hf|]]].
  destruct (doDial_fallback sample_ext default_vars 7 "QmRemote" sched_one_answer
              s s err tr sample_conn eq_refl Hd Hf) as (s2 & H & -> & _).
  exact H.
Defined.

(** C3, as the code has it: when [dial] fails with [err] and the fallback
    view has no connection to the peer, [doDial] returns the wrapped error
    and calls [AddBackoff(p)] exactly when [err] is not the value
    [context.Canceled]: the registry changes in that case, and only in
    that case.  A dial that fails with [context.Canceled] adds no backoff;
    one that fails with the timeout [context.DeadlineExceeded] does. *)
Theorem doDial_backoff_iff_not_canceled (X : Externals) (v : BackoffVars) (now : Z)
    (p : peer_ID) (sched : list select_case) (s s1 : Swarm) (err : error)
    (tr : list Event) :
  bestConnToPeerWrapper X s p = None ->
  dial X p sched s = Some (Err err, s1, tr) ->
  bestConnToPeerFallbackWrapper X s1 p = None ->
  exists s2,
    doDial X v now p sched s = Some (Err (Errorf_doDial err), s2, tr)
    /\ (err <> Canceled -> backf s2 = AddBackoff v now p (backf s1))
    /\ (err = DeadlineExceeded -> backf s2 = AddBackoff v now p (backf s1))
    /\ (err = Canceled -> s2 = s1)
    /\ AddBackoff v now p (backf s1) <> backf s1.
Proof.
  intros Hb Hd Hf.
  rewrite (doDial_after_error X v now p sched s s1 err tr Hb Hd), Hf.
  eexists. split; [reflexivity|].
  destruct (decide (err <> Canceled)) as [Hne|He].
  - repeat split; try done. by apply AddBackoff_changes.
  - apply dec_stable in He. subst err. repeat split; try done.
    by apply AddBackoff_changes.
Qed.

Lemma doDial_backoff_iff_not_canceled_witness :
  let s := sample_swarm tcp_refused [addrA] [] in
  let err := Errorf_dialAddr "QmLocal" "QmRemote" (ErrExternal "refused") in
  let tr := [EvAddDialJob "QmRemote" addrA; EvTransportDial "tcp" addrA "QmRemote";
             EvClearAllPeerDials "QmRemote"] in
  bestConnToPeerWrapper sample_ext s "QmRemote" = None
  /\ dial sample_ext "QmRemote" sched_one_answer s = Some (Err err, s, tr)
  /\ bestConnToPeerFallbackWrapper sample_ext s "QmRemote" = None
  /\ exists s2,
       doDial sample_ext default_vars 7 "QmRemote" sched_one_answer s
         = Some (Err (Errorf_doDial err), s2, tr)
       /\ (err <> Canceled -> backf s2 = AddBackoff default_vars 7 "QmRemote" (backf s)).
Proof.
  intros s err tr.
  assert (Hd : dial sample_ext "QmRemote" sched_one_answer s = Some (Err err, s, tr))
    by (vm_compute; reflexivity).
  split; [reflexivity | split; [exact Hd | split; [reflexivity|]]].
  destruct (doDial_backoff_iff_not_canceled sample_ext default_vars 7 "QmRemote"
              sched_one_answer s s err tr eq_refl Hd eq_refl) as (s2 & H1 & H2 & _).
  exists s2. split; [exact H1 | exact H2].
Defined.

(** C3 as stated fails for timeouts: the only address is being dialled
    when the deadline of the context passes; [dial] fails with
    [context.DeadlineExceeded], no fallback connection exists, and
    [doDial] records a backoff for the peer, which had none. *)
Lemma doDial_timeout_adds_backoff :
  let s := sample_swarm tcp_ok [addrA] [] in
  let sched := [SecondAddr; FirstCtxDone CtxDeadlineExceeded] in
  let tr := [EvAddDialJob "QmRemote" addrA; EvClearAllPeerDials "QmRemote"] in
  bestConnToPeerWrapper sample_ext s "QmRemote" = None
  /\ dial sample_ext "QmRemote" sched s = Some (Err DeadlineExceeded, s, tr)
  /\ bestConnToPeerFallbackWrapper sample_ext s "QmRemote" = None
  /\ entry (backf s) "QmRemote" = None
  /\ exists s2,
       doDial sample_ext default_vars 7 "QmRemote" sched s
         = Some (Err (Errorf_doDial DeadlineExceeded), s2, tr)
       /\ entry (backf s2) "QmRemote" = Some {| tries := 1; until := 7 + 5 * Second |}.
Proof.
  intros s sched tr.
  assert (Hd : dial sample_ext "QmRemote" sched s = Some (Err DeadlineExceeded, s, tr))
    by (vm_compute; reflexivity).
  split; [reflexivity | split; [exact Hd | split; [reflexivity | split]]].
  - vm_compute; reflexivity.
  - rewrite (doDial_after_error sample_ext default_vars 7 "QmRemote" sched s s
               DeadlineExceeded tr eq_refl Hd).
    eexists. split; [reflexivity|]. vm_compute; reflexivity.
Qed.



(** ** The address filter *)

Lemma FilterAddrs_acc (filters : list (Multiaddr -> bool)) (a b : list Multiaddr) :
  fold_left
    (fun b addr =>
       if fold_left (fun good f => good && f addr) filters true
       then b ++ [addr] else b) a b
  = b ++ List.filter (fun addr => fold_left (fun good f => good && f addr) filters true) a.
Proof.
  revert b. induction a as [|addr a IH]; intros b; simpl.
  - by rewrite app_nil_r.
  - rewrite IH. destruct (fold_left _ filters true); [|done].
    by rewrite <- app_assoc.
Qed.

Lemma FilterAddrs_filter (a : list Multiaddr) (filters : list (Multiaddr -> bool)) :
  FilterAddrs a filters
  = List.filter (fun addr => fold_left (fun good f => good && f addr) filters true) a.
Proof. unfold FilterAddrs. by rewrite FilterAddrs_acc. Qed.

Lemma ourAddrs_filter (s : Swarm) :
  ourAddrs s = List.filter spec_ip_listen_addrb (InterfaceListenAddresses s).
Proof.
  unfold ourAddrs. generalize (InterfaceListenAddresses s) as l.
  assert (H : forall (l b : list Multiaddr),
            fold_left
              (fun our addr =>
                 if (length (Protocols addr) =? 2)%nat
                    && match Protocols addr with
                       | c0 :: _ => (c0 =? P_IP4) || (c0 =? P_IP6)
                       | [] => false
                       end
                 then our ++ [addr] else our) l b
            = b ++ List.filter spec_ip_listen_addrb l).
  { induction l as [|addr l IH]; intros b; simpl.
    - by rewrite app_nil_r.
    - rewrite IH. unfold spec_ip_listen_addrb at 2.
      destruct (Protocols addr) as [|c0 [|c1 [|c2 ps]]]; simpl; try done.
      destruct ((c0 =? P_IP4) || (c0 =? P_IP6)); [|done].
      by rewrite <- app_assoc. }
  intros l. apply (H l []).
Qed.

Lemma spec_ip_listen_addrb_true (l : Multiaddr) :
  spec_ip_listen_addrb l = true <-> spec_ip_listen_addr l.
Proof.
  unfold spec_ip_listen_addrb, spec_ip_listen_addr.
  destruct (Protocols l) as [|c0 [|c1 [|c2 ps]]]; split;
    try discriminate; try (by intros (? & ? & ? & _)).
  - intros H. exists c0, c1. split; [done|].
    apply orb_true_iff in H as [H|H]; apply Z.eqb_eq in H; auto.
  - intros (d0 & d1 & [= <- <-] & [H|H]); apply orb_true_iff;
      [left | right]; by apply Z.eqb_eq.
Qed.

Lemma SubtractFilter_ourAddrs (s : Swarm) (a : Multiaddr) :
  SubtractFilter (ourAddrs s) a
  = negb (existsb (fun l => spec_ip_listen_addrb l && bool_decide (a = l))
            (InterfaceListenAddresses s)).
Proof.
  unfold SubtractFilter. f_equal. rewrite ourAddrs_filter.
  apply eq_true_iff_eq. rewrite bool_decide_eq_true, elem_of_list_to_set.
  rewrite list_elem_of_In, filter_In, existsb_exists. split.
  - intros [Hin Hb]. exists a. by rewrite Hb, bool_decide_true.
  - intros (l & Hin & Hb). apply andb_true_iff in Hb as [Hb He].
    apply bool_decide_eq_true in He. by subst l.
Qed.

(** The test [filterKnownUndialables] applies to each address. *)
Lemma filterKnownUndialables_filter (X : Externals) (s : Swarm) (addrs : list Multiaddr) :
  filterKnownUndialables X s addrs = List.filter (spec_dialableb X s) addrs.
Proof.
  unfold filterKnownUndialables. rewrite FilterAddrs_filter.
  apply filter_ext. intros a. simpl.
  rewrite SubtractFilter_ourAddrs. unfold spec_dialableb, canDial, FilterNeg.
  destruct (negb (existsb _ _)), (AddrOverNonLocalIP X a),
    (TransportForDialing s a) as [t|], (AddrBlocked s a); simpl;
    try reflexivity; destruct (CanDial t a); reflexivity.
Qed.

Lemma spec_dialableb_true (X : Externals) (s : Swarm) (a : Multiaddr) :
  spec_dialableb X s a = true <-> spec_dialable X s a.
Proof.
  unfold spec_dialableb, spec_dialable.
  rewrite !andb_true_iff, !negb_true_iff.
  rewrite <- not_true_iff_false, existsb_exists.
  split.
  - intros [[[H1 H2] H3] H4]. repeat split; try done.
    + intros (l & Hin & Hip & ->). apply H1. exists l.
      split; [by apply list_elem_of_In|].
      apply andb_true_iff. split; [by apply spec_ip_listen_addrb_true|].
      by apply bool_decide_eq_true.
    + destruct (TransportForDialing s a) as [t|]; [eauto | discriminate].
  - intros (H1 & H2 & (t & Ht & Hc) & H4). repeat split; try done.
    + intros (l & Hin & Hb). apply andb_true_iff in Hb as [Hip He].
      apply bool_decide_eq_true in He. apply H1. exists l.
      split; [by apply list_elem_of_In|].
      split; [by apply spec_ip_listen_addrb_true | done].
    + by rewrite Ht.
Qed.

Lemma sublist_List_filter {A : Type} (f : A -> bool) (l : list A) :
  sublist (List.filter f l) l.
Proof.
  induction l as [|x l IH]; simpl; [constructor|].
  destruct (f x); by constructor.
Qed.

(** C7: [filterKnownUndialables] is a stable filter.  Its output is the
    input list filtered by the test of the spec, so it keeps the input
    order (and multiplicity), and it consists exactly of the input
    addresses that (1) equal none of our interface-listen addresses whose
    protocol stack is exactly two protocols beginning with /ip4 or /ip6,
    (2) are over a non-local IP, (3) have a transport that exists and can
    dial them, and (4) are not blocked by the policy filter. *)
Theorem filterKnownUndialables_stable_filter (X : Externals) (s : Swarm)
    (addrs : list Multiaddr) :
  filterKnownUndialables X s addrs = List.filter (spec_dialableb X s) addrs
  /\ (forall a, spec_dialableb X s a = true <-> spec_dialable X s a)
  /\ sublist (filterKnownUndialables X s addrs) addrs
  /\ (forall a, a ∈ filterKnownUndialables X s addrs <-> a ∈ addrs /\ spec_dialable X s a).
Proof.
  split; [apply filterKnownUndialables_filter | split; [|split]].
  - intros a. apply spec_dialableb_true.
  - rewrite filterKnownUndialables_filter. apply sublist_List_filter.
  - intros a. rewrite filterKnownUndialables_filter.
    rewrite !list_elem_of_In, filter_In. by rewrite spec_dialableb_true.
Qed.

(** Of three known addresses, our own listen address is dropped and the
    other two are kept in their order. *)
Example filterKnownUndialables_sample :
  filterKnownUndialables sample_ext (sample_swarm tcp_ok [] [])
    [addrB; addrListen; addrA; addrB]
  = [addrB; addrA; addrB].
Proof. vm_compute. reflexivity. Qed.

(** * Further properties of the code *)

(** ** Backoff arithmetic *)

Lemma backoffTime_le_max (v : BackoffVars) (k : Z) : backoffTime v k <= BackoffMax v.
Proof.
  unfold backoffTime.
  destruct (Z.gtb_spec (wrap64 (BackoffBase v + wrap64 (BackoffCoef v * wrap64 (k * k))))
              (BackoffMax v)); lia.
Qed.

(** X1: Whatever the variables and however large [tries] is (also when the
    64-bit arithmetic wraps), [AddBackoff] on an existing entry never sets
    [until] later than [now + BackoffMax], and it counts one more try. *)
Theorem AddBackoff_wait_bounded (v : BackoffVars) (now : Z) (p : peer_ID)
    (db : DialBackoff) (bp : backoffPeer) :
  entry db p = Some bp ->
  exists bp',
    entry (AddBackoff v now p db) p = Some bp'
    /\ until bp' <= now + BackoffMax v
    /\ tries bp' = wrap64 (tries bp + 1).
Proof.
  intros H. eexists. split; [by apply AddBackoff_present|]. simpl.
  split; [|done]. pose proof (backoffTime_le_max v (tries bp)). lia.
Qed.

Lemma AddBackoff_wait_bounded_witness :
  entry (sample_backoff 200000 0) "QmRemote" = Some {| tries := 200000; until := 0 |}
  /\ exists bp',
       entry (AddBackoff default_vars 50 "QmRemote" (sample_backoff 200000 0)) "QmRemote"
       = Some bp'
       /\ until bp' <= 50 + BackoffMax default_vars
       /\ tries bp' = wrap64 (200000 + 1).
Proof.
  assert (H : entry (sample_backoff 200000 0) "QmRemote"
              = Some {| tries := 200000; until := 0 |}) by (vm_compute; reflexivity).
  split; [exact H|].
  exact (AddBackoff_wait_bounded default_vars 50 "QmRemote" _ _ H).
Defined.

(** X2: With the default variables and [tries] below the wrap (0..96038), the
    wait is at least 5s and at most 5m, it never shrinks when [tries]
    grows, it is the quadratic [5s + tries^2 * 1s] up to [tries = 17] and
    the cap of 5m from [tries = 18] on. *)
Theorem backoffTime_default_profile :
  (forall k, 0 <= k <= 96038 ->
     5 * Second <= backoffTime default_vars k <= 5 * Minute)
  /\ (forall j k, 0 <= j <= k -> k <= 96038 ->
        backoffTime default_vars j <= backoffTime default_vars k)
  /\ (forall k, 0 <= k <= 17 ->
        backoffTime default_vars k = 5 * Second + k ^ 2 * Second
        /\ backoffTime default_vars k < 5 * Minute)
  /\ (forall k, 18 <= k <= 96038 -> backoffTime default_vars k = 5 * Minute).
Proof.
  assert (E : forall k, 0 <= k <= 96038 ->
            backoffTime default_vars k
            = Z.min (5 * Minute) (5 * Second + k ^ 2 * Second)).
  { intros k Hk. rewrite backoffTime_default_in_range by done.
    unfold default_vars; simpl. f_equal; lia. }
  unfold Minute, Second in *.
  split; [|split; [|split]].
  - intros k Hk. rewrite E by done. nia.
  - intros j k Hj Hk. rewrite !E by lia. apply Z.min_le_compat_l. nia.
  - intros k Hk. rewrite E by lia. split; [apply Z.min_r|]; nia.
  - intros k Hk. rewrite E by lia. apply Z.min_l. nia.
Qed.

(** X3: After the first [AddBackoff] for a peer, [Backoff] answers true
    exactly for the clock readings before [now + BackoffBase]. *)
Theorem Backoff_after_first_AddBackoff (v : BackoffVars) (now t : Z) (p : peer_ID)
    (db : DialBackoff) :
  entry db p = None ->
  snd (Backoff t p (AddBackoff v now p db)) = true <-> t < now + BackoffBase v.
Proof.
  intros H. rewrite Backoff_flag, (AddBackoff_absent _ _ _ _ H). simpl.
  apply Z.ltb_lt.
Qed.

Lemma Backoff_after_first_AddBackoff_witness :
  entry {| entries := None |} "QmRemote" = None
  /\ (snd (Backoff 4999999999 "QmRemote"
             (AddBackoff default_vars 0 "QmRemote" {| entries := None |})) = true
      <-> 4999999999 < 0 + BackoffBase default_vars).
Proof.
  split; [reflexivity|].
  exact (Backoff_after_first_AddBackoff default_vars 0 4999999999 "QmRemote"
           {| entries := None |} eq_refl).
Defined.

(** X4: [Clear] forgets the history of a peer: right after it [Backoff]
    answers false at every clock reading, the next [AddBackoff] starts
    again at [tries = 1] with the base wait, and a second [Clear] changes
    nothing. *)
Theorem Clear_restarts_backoff (v : BackoffVars) (now t : Z) (p : peer_ID)
    (db : DialBackoff) :
  snd (Backoff t p (Clear p db)) = false
  /\ entry (AddBackoff v now p (Clear p db)) p
     = Some {| tries := 1; until := now + BackoffBase v |}
  /\ Clear p (Clear p db) = Clear p db.
Proof.
  assert (H : entry (Clear p db) p = None)
    by (rewrite Clear_entry; by rewrite decide_True).
  split; [by rewrite Backoff_flag, H | split; [by apply AddBackoff_absent|]].
  unfold Clear, init. simpl. f_equal. f_equal. apply delete_delete_eq.
Qed.

(** X5: The three operations on one peer do not disturb another peer: its
    entry and the answer of [Backoff] for it are unchanged. *)
Theorem backoff_other_peer (v : BackoffVars) (now t : Z) (p q : peer_ID)
    (db : DialBackoff) :
  p <> q ->
  entry (AddBackoff v now p db) q = entry db q
  /\ entry (Clear p db) q = entry db q
  /\ entry (fst (Backoff now p db)) q = entry db q
  /\ snd (Backoff t q (AddBackoff v now p db)) = snd (Backoff t q db)
  /\ snd (Backoff t q (Clear p db)) = snd (Backoff t q db).
Proof.
  intros Hne.
  assert (Hc : entry (Clear p db) q = entry db q)
    by (rewrite Clear_entry; by rewrite decide_False).
  repeat split.
  - by apply AddBackoff_other.
  - exact Hc.
  - apply Backoff_entry.
  - by rewrite !Backoff_flag, AddBackoff_other.
  - by rewrite !Backoff_flag, Hc.
Qed.

Lemma backoff_other_peer_witness :
  "QmOther" <> "QmRemote"
  /\ entry (AddBackoff default_vars 5 "QmOther" (sample_backoff 3 10)) "QmRemote"
     = entry (sample_backoff 3 10) "QmRemote"
  /\ entry (Clear "QmOther" (sample_backoff 3 10)) "QmRemote"
     = entry (sample_backoff 3 10) "QmRemote".
Proof.
  assert (Hne : "QmOther" <> "QmRemote") by discriminate.
  destruct (backoff_other_peer default_vars 5 7 "QmOther" "QmRemote"
              (sample_backoff 3 10) Hne) as (H1 & H2 & _).
  split; [exact Hne | split; [exact H1 | exact H2]].
Defined.

(** ** The connection wrapper *)

Lemma wrapConns_loop_spec (conns1 : list Conn) :
  forall (acc : list (option Conn)),
    wrapConns_loop (length acc) conns1 (acc ++ replicate (length conns1) None)
    = acc ++ map (fun c1 => match wrapConn c1 with
                             | Ok c2 => Some c2
                             | Err _ => None
                             end) conns1.
Proof.
  induction conns1 as [|c1 rest IH]; intros acc; simpl; [reflexivity|].
  assert (Hi : forall x : option Conn,
            wrapConns_loop (S (length acc)) rest
              (acc ++ x :: replicate (length rest) None)
            = acc ++ x :: map (fun c1 => match wrapConn c1 with
                                          | Ok c2 => Some c2
                                          | Err _ => None
                                          end) rest).
  { intros x. specialize (IH (acc ++ [x])).
    rewrite length_app, <- !app_assoc in IH. simpl in IH.
    by rewrite Nat.add_1_r in IH. }
  destruct (wrapConn c1) as [c2|err].
  - rewrite insert_app_r_alt by lia. rewrite Nat.sub_diag. simpl. apply Hi.
  - apply Hi.
Qed.

(** X6: [wrapConns] returns a slice as long as its input; slot [i] holds the
    connection at index [i], unchanged, when that connection wraps one of
    our [conn.Conn]s, and nil otherwise.  So a foreign connection leaves a
    nil slot in place instead of being dropped. *)
Theorem wrapConns_slots (conns1 : list Conn) :
  length (wrapConns conns1) = length conns1
  /\ (forall i c, conns1 !! i = Some c ->
        wrapConns conns1 !! i
        = Some (match NetConn c with IsConn _ => Some c | NotConn _ => None end))
  /\ (forall i, conns1 !! i = None -> wrapConns conns1 !! i = None).
Proof.
  assert (E : wrapConns conns1
              = map (fun c1 => match wrapConn c1 with
                               | Ok c2 => Some c2
                               | Err _ => None
                               end) conns1)
    by apply (wrapConns_loop_spec conns1 []).
  rewrite E. split; [apply length_map | split].
  - intros i c Hc. rewrite list_lookup_fmap, Hc. simpl. unfold wrapConn.
    by destruct (NetConn c).
  - intros i Hi. by rewrite list_lookup_fmap, Hi.
Qed.

(** A foreign connection between two of ours leaves a nil slot. *)
Example wrapConns_sample :
  wrapConns [sample_conn; foreign_conn; sample_conn]
  = [Some sample_conn; None; Some sample_conn].
Proof. reflexivity. Qed.

(** X7: [newConnSetup] on a connection that is not one of ours returns the
    error of [wrapConn] and touches nothing.  On one of ours it returns
    the connection with the remote peer added as a group; it stores the
    remote public key when there is one and otherwise leaves the peer
    store alone; and in no case does it change the backoff registry, the
    known addresses, the connection table or call a collaborator. *)
Theorem newConnSetup_effects (psConn : Conn) (s : Swarm) :
  exists r s',
    newConnSetup psConn s = Some (r, s', [])
    /\ backf s' = backf s
    /\ conns s' = conns s
    /\ ps_addrs (peers s') = ps_addrs (peers s)
    /\ match NetConn psConn with
       | NotConn desc => r = Err (Errorf_wrapConn desc) /\ s' = s
       | IsConn rc =>
           r = Ok {| NetConn := IsConn rc; groups := groups psConn ++ [RemotePeer rc] |}
           /\ match RemotePublicKey rc with
              | Some pk =>
                  ps_pubkeys (peers s') = <[RemotePeer rc := pk]> (ps_pubkeys (peers s))
              | None => s' = s
              end
       end.
Proof.
  destruct psConn as [[rc|desc] gs].
  - rewrite newConnSetup_conn. do 2 eexists. split; [reflexivity|].
    simpl. destruct (RemotePublicKey rc) eqn:E; simpl; done.
  - do 2 eexists. split; [reflexivity|]. done.
Qed.

(** Closes the routine goals about membership in a short trace. *)
Ltac trace_goal :=
  repeat intro; simplify_eq/=;
  repeat match goal with
    | H : _ ∈ [] |- _ => by apply elem_of_nil in H
    | H : _ ∈ _ :: _ |- _ => apply elem_of_cons in H as [?|H]; simplify_eq/=
    end;
  try done; try congruence; eauto.

(** ** One address, again *)

(** X8: The calls [dialAddr] makes.  A dial of the local peer or of an
    address without transport fails before any transport is called.
    Otherwise exactly one transport dial is made, for this address and
    this peer.  A connection that is returned comes from that dial and is
    not closed; the only connection ever closed is one to the wrong peer,
    and then an error is returned. *)
Theorem dialAddr_calls (p : peer_ID) (addr : Multiaddr) (s : Swarm) :
  exists r tr,
    dialAddr p addr s = Some (r, s, tr)
    /\ (local s = p -> r = Err ErrDialToSelf /\ tr = [])
    /\ (local s <> p -> TransportForDialing s addr = None ->
          r = Err ErrNoTransport /\ tr = [])
    /\ (forall tpt, local s <> p -> TransportForDialing s addr = Some tpt ->
          dials_of tr = [addr]
          /\ (forall err, Dial tpt addr p = Err err ->
                r = Err (Errorf_dialAddr (local s) p err) /\ closes_of tr = []))
    /\ (forall c, r = Ok c ->
          closes_of tr = []
          /\ exists tpt, TransportForDialing s addr = Some tpt
                         /\ Dial tpt addr p = Ok c)
    /\ (forall c, c ∈ closes_of tr -> RemotePeer c <> p /\ exists err, r = Err err)
    /\ trace_for p tr
    /\ jobs_of tr = []
    /\ (forall a, a ∈ dials_of tr -> a = addr).
Proof.
  unfold dialAddr, trace_for. munfold.
  destruct (decide (local s = p)) as [Hl|Hl];
    [do 2 eexists; split; [reflexivity|]; repeat split; trace_goal|].
  destruct (TransportForDialing s addr) as [tpt|];
    [|do 2 eexists; split; [reflexivity|]; repeat split; trace_goal].
  simpl. destruct (Dial tpt addr p) as [connC|err] eqn:Hd;
    [destruct (decide (RemotePeer connC <> p)) as [Hne|He]; simpl|];
    (do 2 eexists; split; [reflexivity|]); repeat split; trace_goal.
Qed.

(** ** The address race, again *)

Lemma dialAddr_trace (p : peer_ID) (a : Multiaddr) (s s' : Swarm) (r : result TConn)
    (tr : list Event) :
  dialAddr p a s = Some (r, s', tr) ->
  jobs_of tr = []
  /\ (forall a', a' ∈ dials_of tr -> a' = a)
  /\ trace_for p tr
  /\ (forall q, EvClearAllPeerDials q ∉ tr).
Proof.
  unfold dialAddr, trace_for. munfold.
  destruct (decide (local s = p)) as [Hl|Hl];
    [intros [= <- <- <-]; repeat split; trace_goal|].
  destruct (TransportForDialing s a) as [tpt|];
    [|intros [= <- <- <-]; repeat split; trace_goal].
  simpl. destruct (Dial tpt a p) as [connC|err] eqn:Hd;
    [destruct (decide (RemotePeer connC <> p)) as [Hne|He]; simpl|];
    intros [= <- <- <-]; repeat split; trace_goal.
Qed.

(** The four ways an iteration can go. *)
Lemma iteration_cases (p : peer_ID) (c : select_case) (st : race) (s s' : Swarm)
    (x : step) (tr : list Event) :
  iteration p c st s = Some (x, s', tr) ->
  (exists reason, x = Return (on_done reason st) /\ tr = [])
  \/ (exists j a r,
        inflight st !! j = Some a
        /\ dialAddr p a s = Some (r, s, tr)
        /\ x = match r with
               | Ok conn => Return (Ok conn)
               | Err e =>
                   Continue {| remoteAddrs := remoteAddrs st;
                               active := wrap64 (active st - 1);
                               exitErr := e;
                               inflight := delete j (inflight st) |}
               end)
  \/ (remoteAddrs st = Some []
      /\ x = Continue {| remoteAddrs := None; active := active st;
                         exitErr := exitErr st; inflight := inflight st |}
      /\ tr = [])
  \/ (exists a rest,
        remoteAddrs st = Some (a :: rest)
        /\ x = Continue {| remoteAddrs := Some rest; active := wrap64 (active st + 1);
                           exitErr := exitErr st; inflight := inflight st ++ [a] |}
        /\ tr = [EvAddDialJob p a]).
Proof.
  assert (Hresp : forall j, on_resp p j st s = Some (x, s', tr) ->
            exists j a r,
              inflight st !! j = Some a
              /\ dialAddr p a s = Some (r, s, tr)
              /\ x = match r with
                     | Ok conn => Return (Ok conn)
                     | Err e =>
                         Continue {| remoteAddrs := remoteAddrs st;
                                     active := wrap64 (active st - 1);
                                     exitErr := e;
                                     inflight := delete j (inflight st) |}
                     end).
  { intros j. unfold on_resp, job_answer. munfold.
    destruct (inflight st !! j) as [a|] eqn:Hj; [|discriminate].
    destruct (dialAddr p a s) as [[[r s1] tr1]|] eqn:E; [|discriminate].
    apply dialAddr_state in E as Hs. subst s1.
    destruct r as [conn|err]; simpl; intros [= <- <- <-];
      exists j, a; eexists; rewrite !app_nil_r; done. }
  destruct c as [r|j|  |r|j]; simpl.
  - munfold. intros [= <- <- <-]. left. eauto.
  - intros H. right. left. exact (Hresp _ H).
  - unfold limitedDial. munfold.
    destruct (remoteAddrs st) as [[|addr rest]|]; simpl; [| |discriminate].
    + intros [= <- <- <-]. right. right. left. done.
    + intros [= <- <- <-]. right. right. right. eauto.
  - munfold. intros [= <- <- <-]. left. eauto.
  - intros H. right. left. exact (Hresp _ H).
Qed.

Lemma dialAddrs_loop_exit (p : peer_ID) (sched : list select_case) (st : race)
    (s : Swarm) :
  loop_cond st = false ->
  dialAddrs_loop p sched st s = Some (Err (exitErr st), s, []).
Proof. intros H. destruct sched; simpl; by rewrite H. Qed.

Lemma dialAddrs_loop_cons (p : peer_ID) (c : select_case) (sched : list select_case)
    (st : race) (s s' : Swarm) (r : result TConn) (tr : list Event) :
  loop_cond st = true ->
  dialAddrs_loop p (c :: sched) st s = Some (r, s', tr) ->
  exists x tr1,
    iteration p c st s = Some (x, s, tr1)
    /\ match x with
       | Return r1 => r = r1 /\ tr = tr1
       | Continue st1 =>
           exists tr2, dialAddrs_loop p sched st1 s = Some (r, s', tr2)
                       /\ tr = tr1 ++ tr2
       end.
Proof.
  intros Hc. simpl. rewrite Hc. munfold.
  destruct (iteration p c st s) as [[[x s1] tr1]|] eqn:E; [|discriminate].
  apply iteration_inv in E as Hs. destruct Hs as [-> _].
  intros H. exists x, tr1. split; [done|]. revert H.
  destruct x as [st1|r1].
  - destruct (dialAddrs_loop p sched st1 s) as [[[r2 s2] tr2]|] eqn:E2;
      [|discriminate].
    intros [= <- <- <-]. eauto.
  - intros [= <- <- <-]. by rewrite app_nil_r.
Qed.

(** The jobs the loop hands to the limiter are the next addresses of the
    channel, in the channel's order. *)
Lemma dialAddrs_loop_jobs (p : peer_ID) (sched : list select_case) :
  forall (st : race) (s s' : Swarm) (r : result TConn) (tr : list Event),
    dialAddrs_loop p sched st s = Some (r, s', tr) ->
    jobs_of tr `prefix_of` default [] (remoteAddrs st)
    /\ trace_for p tr
    /\ (forall q, EvClearAllPeerDials q ∉ tr).
Proof.
  induction sched as [|c sched IH]; intros st s s' r tr H.
  - simpl in H. destruct (loop_cond st); [discriminate|].
    injection H as <- <- <-. split; [apply prefix_nil|].
    split; [intros e He | intros q He]; by apply elem_of_nil in He.
  - destruct (loop_cond st) eqn:Hc.
    2:{ rewrite dialAddrs_loop_exit in H by done. injection H as <- <- <-.
        split; [apply prefix_nil|].
        split; [intros e He | intros q He]; by apply elem_of_nil in He. }
    apply dialAddrs_loop_cons in H as (x & tr1 & Hit & Hx); [|done].
    apply iteration_cases in Hit
      as [(reason & -> & ->) | [(j & a & r1 & Hj & Hd & ->)
         | [(Hr & -> & ->) | (a & rest & Hr & -> & ->)]]].
    + destruct Hx as [-> ->]. split; [apply prefix_nil|].
      split; [intros e He | intros q He]; by apply elem_of_nil in He.
    + apply dialAddr_trace in Hd as (Hjobs & _ & Hfor & Hclr).
      destruct r1 as [conn|err1].
      * destruct Hx as [-> ->]. rewrite Hjobs. split; [apply prefix_nil|done].
      * destruct Hx as (tr2 & Hloop & ->).
        apply IH in Hloop as (Hp & Hf & Hc2). simpl in Hp.
        unfold jobs_of in *. rewrite omap_app, Hjobs. simpl.
        split; [done|]. split.
        -- intros e He. apply elem_of_app in He as [He|He];
             [by apply Hfor | by apply Hf].
        -- intros q He. apply elem_of_app in He as [He|He];
             [by apply Hclr in He | by apply Hc2 in He].
    + destruct Hx as (tr2 & Hloop & ->).
      apply IH in Hloop as (Hp & Hf & Hc2). simpl in *.
      apply prefix_nil_inv in Hp. rewrite Hr, Hp. simpl. done.
    + destruct Hx as (tr2 & Hloop & ->).
      apply IH in Hloop as (Hp & Hf & Hc2). simpl in *.
      rewrite Hr. simpl. split; [by apply prefix_cons|]. split.
      * intros e He. apply elem_of_cons in He as [->|He]; [done | by apply Hf].
      * intros q He. apply elem_of_cons in He as [He|He];
          [discriminate | by apply Hc2 in He].
Qed.

(** X9: Every job the race hands to the limiter is for [p], and the submitted
    addresses are a prefix of the address list, in its order: no address
    is submitted twice or out of turn.  The deferred
    [clearAllPeerDials(p)] is the last call of every run that returns, and
    it is made once. *)
Theorem dialAddrs_jobs_in_order (p : peer_ID) (addrs : list Multiaddr)
    (sched : list select_case) (s s' : Swarm) (r : result TConn) (tr : list Event) :
  dialAddrs p addrs sched s = Some (r, s', tr) ->
  jobs_of tr `prefix_of` addrs
  /\ trace_for p tr
  /\ exists tr0, tr = tr0 ++ [EvClearAllPeerDials p]
                 /\ forall q, EvClearAllPeerDials q ∉ tr0.
Proof.
  unfold dialAddrs. munfold.
  destruct (dialAddrs_loop _ _ _ _) as [[[r1 s1] tr1]|] eqn:E; [|discriminate].
  intros [= <- <- <-]. apply dialAddrs_loop_jobs in E as (Hp & Hf & Hc).
  simpl in *. split; [|split].
  - unfold jobs_of in *. rewrite omap_app. simpl. by rewrite app_nil_r.
  - intros e He. apply elem_of_app in He as [He|He]; [by apply Hf|].
    apply list_elem_of_singleton in He. by subst e.
  - eauto.
Qed.

Lemma dialAddrs_jobs_in_order_witness :
  let s := sample_swarm tcp_refused [addrA; addrB] [] in
  let sched := [SecondAddr; FirstResp 0%nat; SecondAddr; FirstCtxDone CtxCanceled] in
  exists r tr,
    dialAddrs "QmRemote" [addrA; addrB] sched s = Some (r, s, tr)
    /\ jobs_of tr = [addrA; addrB]
    /\ jobs_of tr `prefix_of` [addrA; addrB].
Proof.
  intros s sched.
  destruct (dialAddrs "QmRemote" [addrA; addrB] sched s) as [[[r s'] tr]|] eqn:E;
    [|vm_compute in E; discriminate].
  pose proof (dialAddrs_jobs_in_order _ _ _ _ _ _ _ E) as (Hp & _).
  assert (Hs : s' = s) by (by apply dialAddrs_inv in E as [-> _]).
  subst s'. exists r, tr. split; [reflexivity|]. split; [|exact Hp].
  vm_compute in E. injection E as _ <-. reflexivity.
Defined.

(** Where the outcome of the loop comes from: a transport is only asked
    to dial an address of a job, and the result is the answer of a job,
    the error the loop started with, or the reason of the context. *)
Lemma dialAddrs_loop_provenance (p : peer_ID) (s : Swarm) (sched : list select_case) :
  forall (st : race) (s' : Swarm) (r : result TConn) (tr : list Event),
    dialAddrs_loop p sched st s = Some (r, s', tr) ->
    (forall a, a ∈ dials_of tr -> a ∈ inflight st \/ a ∈ jobs_of tr)
    /\ match r with
       | Ok c =>
           exists a tr', (a ∈ inflight st \/ a ∈ jobs_of tr)
                         /\ dialAddr p a s = Some (Ok c, s, tr')
       | Err e =>
           e = exitErr st
           \/ (exists reason, e = ctx_Err reason)
           \/ (exists a tr', (a ∈ inflight st \/ a ∈ jobs_of tr)
                             /\ dialAddr p a s = Some (Err e, s, tr'))
       end.
Proof.
  induction sched as [|c sched IH]; intros st s' r tr H.
  - simpl in H. destruct (loop_cond st); [discriminate|].
    injection H as <- <- <-. split; [|by left].
    intros a Ha. by apply elem_of_nil in Ha.
  - destruct (loop_cond st) eqn:Hc.
    2:{ rewrite dialAddrs_loop_exit in H by done. injection H as <- <- <-.
        split; [|by left]. intros a Ha. by apply elem_of_nil in Ha. }
    apply dialAddrs_loop_cons in H as (x & tr1 & Hit & Hx); [|done].
    apply iteration_cases in Hit
      as [(reason & -> & ->) | [(j & a & r1 & Hj & Hd & ->)
         | [(Hr & -> & ->) | (a & rest & Hr & -> & ->)]]].
    + destruct Hx as [-> ->]. split.
      * intros a Ha. by apply elem_of_nil in Ha.
      * unfold on_done. destruct (decide (exitErr st = ErrNoRemoteAddrs)); eauto.
    + apply list_elem_of_lookup_2 in Hj.
      apply dialAddr_trace in Hd as Ht. destruct Ht as (Hjobs & Hdials & _ & _).
      destruct r1 as [conn|err1].
      * destruct Hx as [-> ->]. split.
        -- intros a' Ha'. apply Hdials in Ha'. subst a'. by left.
        -- exists a, tr1. split; [by left | done].
      * destruct Hx as (tr2 & Hloop & ->).
        apply IH in Hloop as (Hd2 & Hres). simpl in Hd2, Hres.
        assert (Hsub : forall a', a' ∈ delete j (inflight st) \/ a' ∈ jobs_of tr2 ->
                         a' ∈ inflight st \/ a' ∈ jobs_of (tr1 ++ tr2)).
        { intros a' [Ha'|Ha'].
          - left. eapply elem_of_sublist; [done | apply sublist_delete].
          - right. unfold jobs_of in *. rewrite omap_app, Hjobs. done. }
        split.
        -- intros a' Ha'. unfold dials_of in Ha'. rewrite omap_app in Ha'.
           apply elem_of_app in Ha' as [Ha'|Ha'].
           ++ apply Hdials in Ha'. subst a'. by left.
           ++ apply Hsub. by apply Hd2.
        -- destruct r as [conn|e].
           ++ destruct Hres as (a' & tr' & Ha' & Hda'). exists a', tr'. auto.
           ++ destruct Hres as [-> | [Hctx | (a' & tr' & Ha' & Hda')]].
              ** right. right. exists a, tr1. split; [by left | done].
              ** right. by left.
              ** right. right. exists a', tr'. auto.
    + destruct Hx as (tr2 & Hloop & ->).
      apply IH in Hloop as (Hd2 & Hres). simpl in *. done.
    + destruct Hx as (tr2 & Hloop & ->).
      apply IH in Hloop as (Hd2 & Hres). simpl in Hd2, Hres.
      assert (Hsub : forall a', a' ∈ inflight st ++ [a] \/ a' ∈ jobs_of tr2 ->
                       a' ∈ inflight st \/ a' ∈ jobs_of ([EvAddDialJob p a] ++ tr2)).
      { simpl. intros a' [Ha'|Ha'].
        - apply elem_of_app in Ha' as [Ha'|Ha']; [by left|].
          apply list_elem_of_singleton in Ha'. subst a'. right. by left.
        - right. by right. }
      split.
      * intros a' Ha'. apply Hsub. by apply Hd2.
      * destruct r as [conn|e].
        -- destruct Hres as (a' & tr' & Ha' & Hda'). exists a', tr'. auto.
        -- destruct Hres as [-> | [Hctx | (a' & tr' & Ha' & Hda')]].
           ++ by left.
           ++ right. by left.
           ++ right. right. exists a', tr'. auto.
Qed.

Lemma jobs_of_snoc_clear (p : peer_ID) (tr : list Event) :
  jobs_of (tr ++ [EvClearAllPeerDials p]) = jobs_of tr
  /\ dials_of (tr ++ [EvClearAllPeerDials p]) = dials_of tr.
Proof. unfold jobs_of, dials_of. rewrite !omap_app. simpl. by rewrite !app_nil_r. Qed.

(** X10: Where the outcome of the race comes from.  A transport is only asked
    to dial an address that was handed to the limiter before, hence an
    address of the list.  A connection the race returns is the one
    [dialAddr] yields for such an address.  An error it returns is the
    default [ErrNoRemoteAddrs], the reason of the context, or the error
    [dialAddr] yields for such an address. *)
Theorem dialAddrs_provenance (p : peer_ID) (addrs : list Multiaddr)
    (sched : list select_case) (s s' : Swarm) (r : result TConn) (tr : list Event) :
  dialAddrs p addrs sched s = Some (r, s', tr) ->
  s' = s
  /\ (forall a, a ∈ dials_of tr -> a ∈ jobs_of tr /\ a ∈ addrs)
  /\ match r with
     | Ok c =>
         exists a tr', a ∈ jobs_of tr /\ a ∈ addrs
                       /\ dialAddr p a s = Some (Ok c, s, tr')
     | Err e =>
         e = ErrNoRemoteAddrs
         \/ (exists reason, e = ctx_Err reason)
         \/ (exists a tr', a ∈ jobs_of tr /\ a ∈ addrs
                           /\ dialAddr p a s = Some (Err e, s, tr'))
     end.
Proof.
  intros H. pose proof (dialAddrs_inv _ _ _ _ _ _ _ H) as [-> _].
  revert H. unfold dialAddrs. munfold.
  destruct (dialAddrs_loop _ _ _ _) as [[[r1 s1] tr1]|] eqn:E; [|discriminate].
  intros [= <- <- <-].
  pose proof (dialAddrs_loop_jobs _ _ _ _ _ _ _ E) as (Hp & _ & _).
  apply dialAddrs_loop_provenance in E as (Hd & Hres). simpl in Hp, Hd, Hres.
  destruct (jobs_of_snoc_clear p tr1) as [Ej Ed]. simpl. rewrite Ej, Ed.
  assert (Hin : forall a, a ∈ [] \/ a ∈ jobs_of tr1 -> a ∈ jobs_of tr1 /\ a ∈ addrs).
  { intros a [Ha|Ha]; [by apply elem_of_nil in Ha|].
    split; [done|]. destruct Hp as [k ->]. apply elem_of_app. by left. }
  split; [done|]. split.
  - intros a Ha. apply Hin. by apply Hd.
  - destruct r1 as [c|e].
    + destruct Hres as (a & tr' & Ha & Hda). apply Hin in Ha as [? ?].
      exists a, tr'. done.
    + destruct Hres as [-> | [Hctx | (a & tr' & Ha & Hda)]].
      * by left.
      * right. by left.
      * right. right. apply Hin in Ha as [? ?]. exists a, tr'. done.
Qed.

Lemma dialAddrs_provenance_witness :
  let s := sample_swarm tcp_ok [addrA; addrB] [] in
  let sched := [SecondAddr; SecondAddr; FirstResp 1%nat] in
  dialAddrs "QmRemote" [addrA; addrB] sched s
  = Some (Ok (conn_to "QmRemote" addrB), s,
          [EvAddDialJob "QmRemote" addrA; EvAddDialJob "QmRemote" addrB;
           EvTransportDial "tcp" addrB "QmRemote"; EvClearAllPeerDials "QmRemote"])
  /\ exists a tr', a ∈ [addrA; addrB]
                   /\ dialAddr "QmRemote" a s
                      = Some (Ok (conn_to "QmRemote" addrB), s, tr').
Proof.
  intros s sched.
  assert (H : dialAddrs "QmRemote" [addrA; addrB] sched s
              = Some (Ok (conn_to "QmRemote" addrB), s,
                      [EvAddDialJob "QmRemote" addrA; EvAddDialJob "QmRemote" addrB;
                       EvTransportDial "tcp" addrB "QmRemote";
                       EvClearAllPeerDials "QmRemote"]))
    by (vm_compute; reflexivity).
  split; [exact H|].
  destruct (dialAddrs_provenance _ _ _ _ _ _ _ H) as (_ & _ & a & tr' & _ & Ha & Hd).
  exists a, tr'. split; [exact Ha | exact Hd].
Defined.

(** X11: With no address to try, the race hands nothing to the limiter, asks
    no transport and never returns a connection: it fails with
    [ErrNoRemoteAddrs], or with the reason of the context when that is
    observed first. *)
Theorem dialAddrs_no_addresses (p : peer_ID) (sched : list select_case)
    (s s' : Swarm) (r : result TConn) (tr : list Event) :
  dialAddrs p [] sched s = Some (r, s', tr) ->
  tr = [EvClearAllPeerDials p]
  /\ (r = Err ErrNoRemoteAddrs \/ exists reason, r = Err (ctx_Err reason)).
Proof.
  unfold dialAddrs. munfold.
  destruct sched as [|c sched]; simpl; [discriminate|].
  munfold. destruct c as [reason|j|  |reason|j]; simpl.
  - intros [= <- <- <-]. split; [done|]. right. by exists reason.
  - unfold on_resp, job_answer. simpl. munfold. discriminate.
  - rewrite dialAddrs_loop_exit by done. simpl.
    intros [= <- <- <-]. split; [done|]. by left.
  - intros [= <- <- <-]. split; [done|]. right. by exists reason.
  - unfold on_resp, job_answer. simpl. munfold. discriminate.
Qed.

Lemma dialAddrs_no_addresses_witness :
  dialAddrs "QmRemote" [] [SecondAddr] (sample_swarm tcp_ok [] [])
  = Some (Err ErrNoRemoteAddrs, sample_swarm tcp_ok [] [],
          [EvClearAllPeerDials "QmRemote"])
  /\ [EvClearAllPeerDials "QmRemote"] = [EvClearAllPeerDials "QmRemote"].
Proof.
  assert (H : dialAddrs "QmRemote" [] [SecondAddr] (sample_swarm tcp_ok [] [])
              = Some (Err ErrNoRemoteAddrs, sample_swarm tcp_ok [] [],
                      [EvClearAllPeerDials "QmRemote"]))
    by (vm_compute; reflexivity).
  split; [exact H|].
  exact (proj1 (dialAddrs_no_addresses _ _ _ _ _ _ H)).
Defined.

(** ** The dial engine, again *)

Lemma dialAddr_closes (p : peer_ID) (a : Multiaddr) (s s' : Swarm) (r : result TConn)
    (tr : list Event) :
  dialAddr p a s = Some (r, s', tr) ->
  forall c, c ∈ closes_of tr -> RemotePeer c <> p.
Proof.
  unfold dialAddr. munfold.
  destruct (decide (local s = p)) as [Hl|Hl];
    [intros [= <- <- <-]; trace_goal|].
  destruct (TransportForDialing s a) as [tpt|];
    [|intros [= <- <- <-]; trace_goal].
  simpl. destruct (Dial tpt a p) as [connC|err] eqn:Hd;
    [destruct (decide (RemotePeer connC <> p)) as [Hne|He]; simpl|];
    intros [= <- <- <-]; trace_goal.
Qed.

(** The connections the loop closes are connections to a wrong peer. *)
Lemma dialAddrs_loop_closes (p : peer_ID) (s : Swarm) (sched : list select_case) :
  forall (st : race) (s' : Swarm) (r : result TConn) (tr : list Event),
    dialAddrs_loop p sched st s = Some (r, s', tr) ->
    forall c, c ∈ closes_of tr -> RemotePeer c <> p.
Proof.
  induction sched as [|c0 sched IH]; intros st s' r tr H c Hc.
  - simpl in H. destruct (loop_cond st); [discriminate|].
    injection H as <- <- <-. by apply elem_of_nil in Hc.
  - destruct (loop_cond st) eqn:Hl.
    2:{ rewrite dialAddrs_loop_exit in H by done. injection H as <- <- <-.
        by apply elem_of_nil in Hc. }
    apply dialAddrs_loop_cons in H as (x & tr1 & Hit & Hx); [|done].
    assert (H1 : forall c, c ∈ closes_of tr1 -> RemotePeer c <> p).
    { apply iteration_cases in Hit
        as [(reason & _ & ->) | [(j & a & r1 & Hj & Hd & _)
           | [(_ & _ & ->) | (a & rest & _ & _ & ->)]]];
        try (intros c' Hc'; by apply elem_of_nil in Hc').
      by apply (dialAddr_closes _ _ _ _ _ _ Hd). }
    destruct x as [st1|r1].
    + destruct Hx as (tr2 & Hloop & ->).
      unfold closes_of in Hc. rewrite omap_app in Hc.
      apply elem_of_app in Hc as [Hc|Hc]; [by apply H1|].
      by apply (IH _ _ _ _ Hloop).
    + destruct Hx as [-> ->]. by apply H1.
Qed.

Lemma filterKnownUndialables_elem (X : Externals) (s : Swarm) (l : list Multiaddr)
    (a : Multiaddr) :
  a ∈ filterKnownUndialables X s l ->
  a ∈ l /\ (a ∉ ourAddrs s) /\ canDial s a = true
  /\ AddrOverNonLocalIP X a = true /\ AddrBlocked s a = false.
Proof.
  unfold filterKnownUndialables. rewrite FilterAddrs_filter.
  rewrite list_elem_of_In, filter_In. simpl. intros [Hin Hf].
  apply andb_true_iff in Hf as [Hf H4]. apply andb_true_iff in Hf as [Hf H3].
  apply andb_true_iff in Hf as [H1 H2].
  unfold SubtractFilter in H1. apply negb_true_iff, bool_decide_eq_false in H1.
  rewrite elem_of_list_to_set in H1.
  unfold FilterNeg in H4. apply negb_true_iff in H4.
  by rewrite list_elem_of_In.
Qed.

(** What a run of [dial] consists of: nothing at all, or one run of the
    race over the candidate addresses, followed by the registration of the
    connection it won or, when that is refused, by closing it. *)
Lemma dial_run (X : Externals) (p : peer_ID) (sched : list select_case)
    (s s' : Swarm) (r : result Conn) (tr : list Event) :
  dial X p sched s = Some (r, s', tr) ->
  (tr = [] /\ exists e, r = Err e)
  \/ exists r1 tr1,
       dialAddrs p (dial_candidates X s p) sched s = Some (r1, s, tr1)
       /\ match r1 with
          | Err e => r = Err e /\ tr = tr1
          | Ok tc =>
              (exists c, r = Ok c /\ RawConn c = Some tc /\ tr = tr1)
              \/ (exists err, r = Err err /\ addConn_refuses X s tc = Some err
                              /\ tr = tr1 ++ [EvClose tc])
          end.
Proof.
  unfold dial, dial_candidates. munfold.
  destruct (decide (p = local s)); [intros [= <- <- <-]; left; eauto|].
  destruct (length (Addrs (peers s) p) =? 0)%nat; [intros [= <- <- <-]; left; eauto|].
  destruct (length (filterKnownUndialables X s (Addrs (peers s) p)) =? 0)%nat;
    [intros [= <- <- <-]; left; eauto|].
  match goal with
  | |- context [dialAddrs p ?g sched s] =>
      destruct (dialAddrs p g sched s) as [[[r1 s1] tr1]|] eqn:E; [|discriminate]
  end.
  apply dialAddrs_inv in E as Hs. destruct Hs as [-> _].
  destruct r1 as [connC|err].
  - rewrite addConn_run. destruct (addConn_refuses X s connC) as [err|] eqn:Hr.
    + intros [= <- <- <-]. right. exists (Ok connC), tr1. split; [done|].
      right. exists err. simpl. by rewrite ?app_nil_r.
    + intros [= <- <- <-]. right. exists (Ok connC), tr1. split; [done|].
      left. eexists. simpl. by rewrite ?app_nil_r.
  - intros [= <- <- <-]. right. exists (Err err), tr1. by rewrite app_nil_r.
Qed.

Lemma trace_snoc_close (tr : list Event) (c : TConn) :
  jobs_of (tr ++ [EvClose c]) = jobs_of tr
  /\ dials_of (tr ++ [EvClose c]) = dials_of tr
  /\ closes_of (tr ++ [EvClose c]) = closes_of tr ++ [c].
Proof. unfold jobs_of, dials_of, closes_of. rewrite !omap_app. simpl. by rewrite !app_nil_r. Qed.

(** What the race asks of its collaborators, for the use of [dial]. *)
Lemma dialAddrs_calls (p : peer_ID) (addrs : list Multiaddr) (sched : list select_case)
    (s s' : Swarm) (r : result TConn) (tr : list Event) :
  dialAddrs p addrs sched s = Some (r, s', tr) ->
  trace_for p tr
  /\ jobs_of tr `prefix_of` addrs
  /\ (forall a, a ∈ dials_of tr -> a ∈ jobs_of tr)
  /\ (forall c, c ∈ closes_of tr -> RemotePeer c <> p).
Proof.
  unfold dialAddrs. munfold.
  destruct (dialAddrs_loop _ _ _ _) as [[[r2 s2] tr2]|] eqn:E; [|discriminate].
  intros [= <- <- <-]. simpl.
  destruct (jobs_of_snoc_clear p tr2) as [Ej Ed]. rewrite ?app_nil_r, Ej, Ed.
  pose proof (dialAddrs_loop_jobs _ _ _ _ _ _ _ E) as (Hp & Hf & _).
  pose proof (dialAddrs_loop_closes _ _ _ _ _ _ _ E) as Hc.
  apply dialAddrs_loop_provenance in E as (Hd & _). simpl in Hp, Hd.
  split; [|split; [done | split]].
  - intros e He. apply elem_of_app in He as [He|He]; [by apply Hf|].
    apply list_elem_of_singleton in He. by subst e.
  - intros a Ha. apply Hd in Ha as [Ha|Ha]; [by apply elem_of_nil in Ha | done].
  - intros c Hin. apply Hc. unfold closes_of in *. rewrite omap_app in Hin.
    simpl in Hin. by rewrite app_nil_r in Hin.
Qed.

(** X12: What [dial] asks of its collaborators.  Every dial job and transport
    dial is for the requested peer; the jobs are the candidate addresses,
    from the first on and in their order; a transport is asked to dial
    only an address that was handed to the limiter.  When no [bestDest]
    selector is installed, every such address is a known address of the
    peer that is not one of our own addresses, has a transport that can
    dial it, is over a non-local IP and is not blocked.  A connection is
    closed only if it is to the wrong peer, or if it is the connection the
    race won and [addConn] returned an error for it, which [dial] then
    returns; so a connection that [dial] returns is never closed. *)
Theorem dial_collaborator_calls (X : Externals) (p : peer_ID) (sched : list select_case)
    (s s' : Swarm) (r : result Conn) (tr : list Event) :
  dial X p sched s = Some (r, s', tr) ->
  trace_for p tr
  /\ jobs_of tr `prefix_of` dial_candidates X s p
  /\ (forall a, a ∈ dials_of tr -> a ∈ jobs_of tr)
  /\ (bestDest s = None ->
      forall a, a ∈ jobs_of tr ->
        a ∈ Addrs (peers s) p /\ (a ∉ ourAddrs s) /\ canDial s a = true
        /\ AddrOverNonLocalIP X a = true /\ AddrBlocked s a = false)
  /\ (forall c, c ∈ closes_of tr ->
        RemotePeer c <> p
        \/ (RemotePeer c = p
            /\ exists err, r = Err err /\ addConn_refuses X s c = Some err))
  /\ (forall c rc, r = Ok c -> RawConn c = Some rc -> rc ∉ closes_of tr).
Proof.
  intros H.
  assert (Hmain : trace_for p tr
                  /\ jobs_of tr `prefix_of` dial_candidates X s p
                  /\ (forall a, a ∈ dials_of tr -> a ∈ jobs_of tr)
                  /\ (forall c, c ∈ closes_of tr ->
                        RemotePeer c <> p
                        \/ (RemotePeer c = p
                            /\ exists err, r = Err err
                                           /\ addConn_refuses X s c = Some err))).
  { apply dial_run in H as [[-> _] | (r1 & tr1 & Hr & Hx)].
    - repeat split; trace_goal. apply prefix_nil.
    - pose proof (dialAddrs_inv _ _ _ _ _ _ _ Hr) as [_ Hpeer].
      apply dialAddrs_calls in Hr as (Hf & Hp & Hd & Hc).
      destruct r1 as [tc|e].
      + destruct Hx as [(c & -> & Hraw & ->) | (err & -> & Href & ->)].
        * repeat split; try done. intros c' Hc'. left. by apply Hc.
        * destruct (trace_snoc_close tr1 tc) as (Ej & Ed & Ecl).
          rewrite Ej, Ed, Ecl. repeat split; try done.
          -- intros e He. apply elem_of_app in He as [He|He]; [by apply Hf|].
             apply list_elem_of_singleton in He. by subst e.
          -- intros c' Hc'. apply elem_of_app in Hc' as [Hc'|Hc'].
             ++ left. by apply Hc.
             ++ apply list_elem_of_singleton in Hc'. subst c'. right.
                split; [by apply Hpeer | eauto].
      + destruct Hx as [-> ->]. repeat split; try done.
        intros c' Hc'. left. by apply Hc. }
  destruct Hmain as (Hf & Hp & Hd & Hc).
  split; [done|]. split; [done|]. split; [done|]. split; [|split; [done|]].
  - intros Hb a Ha. apply (filterKnownUndialables_elem X s).
    unfold dial_candidates in Hp. rewrite Hb in Hp.
    destruct Hp as [k ->]. apply elem_of_app. by left.
  - intros c rc -> Hraw Hin. apply Hc in Hin as [Hne | (_ & err & Herr & _)];
      [|discriminate].
    apply dial_inv in H as (_ & _ & _ & rc' & Hraw' & Hp' & _). congruence.
Qed.

Lemma dial_collaborator_calls_witness :
  let s := sample_swarm tcp_ok [addrListen; addrA; addrB] [] in
  let sched := [SecondAddr; SecondAddr; FirstResp 0%nat] in
  exists r s' tr,
    dial sample_ext "QmRemote" sched s = Some (r, s', tr)
    /\ jobs_of tr = [addrA; addrB]
    /\ dials_of tr = [addrA]
    /\ jobs_of tr `prefix_of` dial_candidates sample_ext s "QmRemote"
    /\ (forall a, a ∈ dials_of tr -> a ∈ jobs_of tr).
Proof.
  intros s sched.
  destruct (dial sample_ext "QmRemote" sched s) as [[[r s'] tr]|] eqn:E;
    [|vm_compute in E; discriminate].
  pose proof (dial_collaborator_calls _ _ _ _ _ _ _ E) as (_ & Hp & Hd & _).
  exists r, s', tr. split; [reflexivity|].
  assert (Hj : jobs_of tr = [addrA; addrB] /\ dials_of tr = [addrA]).
  { vm_compute in E. injection E as _ _ <-. split; reflexivity. }
  destruct Hj as [Hj1 Hj2].
  split; [exact Hj1 | split; [exact Hj2 | split; [exact Hp | exact Hd]]].
Defined.

(** When the connection table refuses the connection the race won, [dial]
    closes that connection, although it is one to the requested peer, and
    returns the error. *)
Example dial_refused_sample :
  dial sample_ext_closed "QmRemote" [SecondAddr; FirstResp 0%nat]
    (sample_swarm tcp_ok [addrA] [])
  = Some (Err (ErrExternal "swarm closed"), sample_swarm tcp_ok [addrA] [],
          [EvAddDialJob "QmRemote" addrA; EvTransportDial "tcp" addrA "QmRemote";
           EvClearAllPeerDials "QmRemote"; EvClose (conn_to "QmRemote" addrA)]).
Proof. vm_compute. reflexivity. Qed.

(** ** The facade, again *)

(** [doDial] with a connection in the best-connection view. *)
Lemma doDial_short_circuit (X : Externals) (v : BackoffVars) (now : Z) (p : peer_ID)
    (sched : list select_case) (s : Swarm) (c : Conn) :
  bestConnToPeerWrapper X s p = Some c ->
  doDial X v now p sched s = Some (Ok c, s, []).
Proof. intros H. unfold doDial. munfold. by rewrite H. Qed.

(** [dialPeer] once the peer is valid, is not the local peer and has no
    connection in the best-connection view. *)
Lemma dialPeer_run (X : Externals) (v : BackoffVars) (now now' : Z) (p : peer_ID)
    (sched : list select_case) (s : Swarm) :
  Validate X p = None ->
  p <> local s ->
  bestConnToPeerWrapper X s p = None ->
  dialPeer X v now now' p sched s
  = let s0 := set_backf (fun _ => fst (Backoff now p (backf s))) s in
    if snd (Backoff now p (backf s)) then Some (Err ErrDialBackoff, s0, [])
    else doDial X v now' p sched s0.
Proof.
  intros Hv Hp Hb. unfold dialPeer, DialLock. rewrite Hv. munfold.
  rewrite decide_False by done. rewrite Hb.
  destruct (Backoff now p (backf s)) as [db b]. simpl.
  destruct b; [done|].
  destruct (doDial X v now' p sched _) as [[[[c|e] s2] tr]|]; simpl;
    by rewrite ?app_nil_r.
Qed.

(** X13: [doDial] returns an error only when [dial] failed and the
    fallback view has no connection to the peer, and the error is always
    the error of [dial] wrapped as "dial attempt failed: ...".  So no
    error of [doDial] is identical to a package or context sentinel: not
    to [context.Canceled] or [context.DeadlineExceeded] when the dial was
    cancelled or timed out, nor to [ErrDialToSelf], [ErrDialFailed] or
    [ErrDialBackoff]. *)
Theorem doDial_error_kinds (X : Externals) (v : BackoffVars) (now : Z) (p : peer_ID)
    (sched : list select_case) (s s' : Swarm) (e : error) (tr : list Event) :
  doDial X v now p sched s = Some (Err e, s', tr) ->
  (exists err s1,
     dial X p sched s = Some (Err err, s1, tr)
     /\ e = Errorf_doDial err
     /\ bestConnToPeerWrapper X s p = None
     /\ bestConnToPeerFallbackWrapper X s1 p = None)
  /\ e <> Canceled /\ e <> DeadlineExceeded
  /\ e <> ErrDialToSelf /\ e <> ErrDialFailed /\ e <> ErrDialBackoff.
Proof.
  unfold doDial. munfold.
  destruct (bestConnToPeerWrapper X s p) eqn:Hb; [discriminate|].
  destruct (dial X p sched s) as [[[[c|err] s1] tr1]|]; simpl; try discriminate.
  destruct (bestConnToPeerFallbackWrapper X s1 p) eqn:Hf; [discriminate|].
  destruct (decide (err <> Canceled)); simpl; intros [= <- <- <-];
    (split; [exists err, s1; by rewrite !app_nil_r | done]).
Qed.

Lemma doDial_error_kinds_witness :
  let s := sample_swarm tcp_ok [addrA] [] in
  let sched := [SecondAddr; FirstCtxDone CtxCanceled] in
  let tr := [EvAddDialJob "QmRemote" addrA; EvClearAllPeerDials "QmRemote"] in
  doDial sample_ext default_vars 7 "QmRemote" sched s
  = Some (Err (Errorf_doDial Canceled), s, tr)
  /\ dial sample_ext "QmRemote" sched s = Some (Err Canceled, s, tr)
  /\ Errorf_doDial Canceled <> Canceled.
Proof.
  intros s sched tr.
  assert (H : doDial sample_ext default_vars 7 "QmRemote" sched s
              = Some (Err (Errorf_doDial Canceled), s, tr))
    by (vm_compute; reflexivity).
  split; [exact H|].
  destruct (doDial_error_kinds _ _ _ _ _ _ _ _ _ H)
    as ((err & s1 & Hd & He & _) & Hc & _).
  injection He as <-.
  assert (Hs : s1 = s) by (apply dial_inv in Hd as (_ & _ & _ & Hs); exact Hs).
  subst s1. split; [exact Hd | exact Hc].
Defined.

(** X14: While a peer is backed off, [dialPeer] fails fast: with no connection
    in the best-connection view and an entry whose [until] is still in
    the future, it returns [ErrDialBackoff] without handing a job to the
    limiter or calling a transport, and it keeps every backoff entry, the
    peer store and the connection table as they are. *)
Theorem dialPeer_backoff_fails_fast (X : Externals) (v : BackoffVars) (now now' : Z)
    (p : peer_ID) (sched : list select_case) (s : Swarm) (bp : backoffPeer) :
  Validate X p = None ->
  p <> local s ->
  bestConnToPeerWrapper X s p = None ->
  entry (backf s) p = Some bp ->
  now < until bp ->
  exists s',
    dialPeer X v now now' p sched s = Some (Err ErrDialBackoff, s', [])
    /\ (forall q, entry (backf s') q = entry (backf s) q)
    /\ peers s' = peers s
    /\ conns s' = conns s.
Proof.
  intros Hv Hp Hb He Hu. rewrite dialPeer_run by done. simpl.
  rewrite Backoff_flag, He. apply Z.ltb_lt in Hu. rewrite Hu.
  eexists. split; [reflexivity|]. simpl. split; [|done].
  intros q. apply Backoff_entry.
Qed.

Lemma dialPeer_backoff_fails_fast_witness :
  let s := set_backf (fun _ => sample_backoff 2 100) (sample_swarm tcp_ok [addrA] []) in
  Validate sample_ext "QmRemote" = None
  /\ "QmRemote" <> local s
  /\ bestConnToPeerWrapper sample_ext s "QmRemote" = None
  /\ entry (backf s) "QmRemote" = Some {| tries := 2; until := 100 |}
  /\ 99 < 100
  /\ exists s',
       dialPeer sample_ext default_vars 99 120 "QmRemote" [SecondAddr; FirstResp 0%nat] s
       = Some (Err ErrDialBackoff, s', []).
Proof.
  intros s.
  assert (H1 : "QmRemote" <> local s) by (vm_compute; discriminate).
  assert (H2 : entry (backf s) "QmRemote" = Some {| tries := 2; until := 100 |})
    by (vm_compute; reflexivity).
  assert (H3 : 99 < 100) by lia.
  destruct (dialPeer_backoff_fails_fast sample_ext default_vars 99 120 "QmRemote"
              [SecondAddr; FirstResp 0%nat] s _ eq_refl H1 eq_refl H2 H3)
    as (s' & H & _).
  split; [reflexivity | split; [exact H1 | split; [reflexivity |
    split; [exact H2 | split; [exact H3 | exists s'; exact H]]]]].
Defined.

(** X15: A connection in the best-connection view is returned as it is, by
    [dialPeer] and by [doDial]: no address is looked up, no job is handed
    to the limiter, no transport is called, and the swarm (its backoff
    registry included) is left as it was, even while the peer is backed
    off. *)
Theorem dialPeer_existing_connection (X : Externals) (v : BackoffVars) (now now' : Z)
    (p : peer_ID) (sched : list select_case) (s : Swarm) (c : Conn) :
  bestConnToPeerWrapper X s p = Some c ->
  doDial X v now' p sched s = Some (Ok c, s, [])
  /\ (Validate X p = None -> p <> local s ->
      dialPeer X v now now' p sched s = Some (Ok c, s, [])).
Proof.
  intros Hb. split; [by apply doDial_short_circuit|].
  intros Hv Hp. unfold dialPeer. rewrite Hv. munfold.
  rewrite decide_False by done. by rewrite Hb.
Qed.

Lemma dialPeer_existing_connection_witness :
  let X := {| Validate := Validate sample_ext;
              AddrOverNonLocalIP := AddrOverNonLocalIP sample_ext;
              bestConnToPeerWrapper := bestConnToPeerFallbackWrapper sample_ext;
              bestConnToPeerFallbackWrapper := bestConnToPeerFallbackWrapper sample_ext;
              addConn_refuses := addConn_refuses sample_ext |} in
  let s := set_backf (fun _ => sample_backoff 2 100)
             (sample_swarm tcp_ok [addrA] [sample_conn]) in
  bestConnToPeerWrapper X s "QmRemote" = Some sample_conn
  /\ dialPeer X default_vars 99 120 "QmRemote" [SecondAddr] s
     = Some (Ok sample_conn, s, []).
Proof.
  intros X s.
  assert (Hb : bestConnToPeerWrapper X s "QmRemote" = Some sample_conn)
    by (vm_compute; reflexivity).
  split; [exact Hb|].
  apply (proj2 (dialPeer_existing_connection X default_vars 99 120 "QmRemote"
                  [SecondAddr] s sample_conn Hb)).
  - reflexivity.
  - vm_compute; discriminate.
Defined.

(** X16: How a failure feeds the backoff gate.  When [doDial] fails with an
    error other than [context.Canceled] and no fallback connection, the
    next [dialPeer] for that peer (valid, not local, without connection)
    at every clock reading before [now] plus the wait returns
    [ErrDialBackoff] and makes no collaborator call; the wait is
    [BackoffBase] for a peer without record and the capped quadratic wait
    of its [tries] otherwise. *)
Theorem doDial_failure_then_backoff (X : Externals) (v : BackoffVars) (now : Z)
    (p : peer_ID) (sched : list select_case) (s s1 : Swarm) (err : error)
    (tr : list Event) :
  bestConnToPeerWrapper X s p = None ->
  dial X p sched s = Some (Err err, s1, tr) ->
  bestConnToPeerFallbackWrapper X s1 p = None ->
  err <> Canceled ->
  exists s2,
    doDial X v now p sched s = Some (Err (Errorf_doDial err), s2, tr)
    /\ local s2 = local s1
    /\ forall t t' sched',
         Validate X p = None ->
         p <> local s1 ->
         bestConnToPeerWrapper X s2 p = None ->
         t < now + match entry (backf s1) p with
                   | None => BackoffBase v
                   | Some bp => backoffTime v (tries bp)
                   end ->
         exists s3, dialPeer X v t t' p sched' s2 = Some (Err ErrDialBackoff, s3, []).
Proof.
  intros Hb Hd Hf Hne.
  rewrite (doDial_after_error X v now p sched s s1 err tr Hb Hd), Hf.
  rewrite decide_True by done.
  eexists. split; [reflexivity|]. split; [reflexivity|].
  intros t t' sched' Hv Hp Hb2 Ht.
  rewrite dialPeer_run by done. simpl.
  rewrite Backoff_flag.
  destruct (entry (backf s1) p) as [bp|] eqn:E.
  - rewrite (AddBackoff_present _ _ _ _ _ E). simpl.
    apply Z.ltb_lt in Ht. rewrite Ht. eauto.
  - rewrite (AddBackoff_absent _ _ _ _ E). simpl.
    apply Z.ltb_lt in Ht. rewrite Ht. eauto.
Qed.

Lemma doDial_failure_then_backoff_witness :
  let s := sample_swarm tcp_refused [addrA] [] in
  let err := Errorf_dialAddr "QmLocal" "QmRemote" (ErrExternal "refused") in
  let tr := [EvAddDialJob "QmRemote" addrA; EvTransportDial "tcp" addrA "QmRemote";
             EvClearAllPeerDials "QmRemote"] in
  bestConnToPeerWrapper sample_ext s "QmRemote" = None
  /\ dial sample_ext "QmRemote" sched_one_answer s = Some (Err err, s, tr)
  /\ bestConnToPeerFallbackWrapper sample_ext s "QmRemote" = None
  /\ err <> Canceled
  /\ exists s2,
       doDial sample_ext default_vars 7 "QmRemote" sched_one_answer s
       = Some (Err (Errorf_doDial err), s2, tr)
       /\ exists s3,
            dialPeer sample_ext default_vars 5000000006 5000000009 "QmRemote"
              sched_one_answer s2
            = Some (Err ErrDialBackoff, s3, []).
Proof.
  intros s err tr.
  assert (Hd : dial sample_ext "QmRemote" sched_one_answer s = Some (Err err, s, tr))
    by (vm_compute; reflexivity).
  assert (Hne : err <> Canceled) by discriminate.
  destruct (doDial_failure_then_backoff sample_ext default_vars 7 "QmRemote"
              sched_one_answer s s err tr eq_refl Hd eq_refl Hne)
    as (s2 & H1 & _ & H2).
  split; [reflexivity | split; [exact Hd | split; [reflexivity | split; [exact Hne|]]]].
  exists s2. split; [exact H1|].
  apply H2.
  - reflexivity.
  - vm_compute; discriminate.
  - reflexivity.
  - vm_compute; reflexivity.
Defined.

(** ** The address filter, again *)

Lemma List_filter_idem {A : Type} (f : A -> bool) (l : list A) :
  List.filter f (List.filter f l) = List.filter f l.
Proof.
  induction l as [|x l IH]; simpl; [done|].
  destruct (f x) eqn:E; simpl; [rewrite E; by f_equal | done].
Qed.

(** X17: [filterKnownUndialables] can be applied piecewise and repeatedly: the
    filter of a concatenation is the concatenation of the filters, a second
    pass removes nothing more, nothing is added (the output is no longer
    than the input) and an empty list stays empty.  An address that is
    blocked, or equal to one of our two-protocol IP listen addresses, is in
    no output. *)
Theorem filterKnownUndialables_algebra (X : Externals) (s : Swarm)
    (l1 l2 : list Multiaddr) :
  filterKnownUndialables X s (l1 ++ l2)
  = filterKnownUndialables X s l1 ++ filterKnownUndialables X s l2
  /\ filterKnownUndialables X s (filterKnownUndialables X s l1)
     = filterKnownUndialables X s l1
  /\ (length (filterKnownUndialables X s l1) <= length l1)%nat
  /\ filterKnownUndialables X s [] = []
  /\ (forall a, AddrBlocked s a = true -> a ∉ filterKnownUndialables X s l1)
  /\ (forall a, a ∈ ourAddrs s -> a ∉ filterKnownUndialables X s l1).
Proof.
  unfold filterKnownUndialables. rewrite !FilterAddrs_filter.
  split; [apply List.filter_app|]. split; [apply List_filter_idem|].
  split; [apply List.filter_length_le|]. split; [reflexivity|].
  split.
  - intros a Ha Hin.
    pose proof (filterKnownUndialables_elem X s l1 a) as H.
    unfold filterKnownUndialables in H. rewrite FilterAddrs_filter in H.
    apply H in Hin as (_ & _ & _ & _ & Hb). congruence.
  - intros a Ha Hin.
    pose proof (filterKnownUndialables_elem X s l1 a) as H.
    unfold filterKnownUndialables in H. rewrite FilterAddrs_filter in H.
    apply H in Hin as (_ & Ho & _). contradiction.
Qed.
